(** * gVisor: netfilter extension registry and kernfs dentry tree

    A shallow embedding of two Go files of the repository:

    - [pkg/sentry/socket/netfilter/extensions.go]: the registry of matcher
      and target extensions and the marshalling of [xt_entry_match];
    - the kernfs dentry/filesystem core ([Filesystem], [Dentry], [Init],
      [DecRef], [insertChild], the deferred-destruction queue and the
      inode-number allocator).

    Go pointers are addresses into explicit stores, structs are records,
    Go maps are [gmap]s, fixed-width integers are [Z] with the wrap-around
    written out, and a panic is an outcome of its own rather than a
    missing result. *)

From Stdlib Require Import ZArith List Lia Permutation Sorted.
From stdpp Require Import gmap strings list fin_maps.

Open Scope Z_scope.

(** ** The Go run time, as far as the two files need it *)

(** The value carried by a panic.  [fmt.Sprintf] is left uninterpreted:
    the format string names the panic site, the formatted arguments are
    not kept. *)
Inductive panic_value : Type :=
| Sprintf (format : string)
| NilPointerDereference
| SliceBoundsOutOfRange
| MakeLenOutOfRange.

(** How a call ends: it returns [a] in state [s], it panics in state [s],
    or the calling goroutine blocks for ever on a mutex it already holds
    (Go mutexes are not reentrant). *)
Inductive outcome (S A : Type) : Type :=
| Ret (a : A) (s : S)
| Panic (v : panic_value) (s : S)
| Blocked (s : S).
Arguments Ret {S A} a s.
Arguments Panic {S A} v s.
Arguments Blocked {S A} s.

Definition final_state {S A} (o : outcome S A) : S :=
  match o with Ret _ s => s | Panic _ s => s | Blocked s => s end.

Definition returns {S A} (o : outcome S A) : bool :=
  match o with Ret _ _ => true | _ => false end.

Definition panics {S A} (o : outcome S A) : bool :=
  match o with Panic _ _ => true | _ => false end.

(** A computation over a state [S]. *)
Definition M (S A : Type) : Type := S -> outcome S A.

Definition ret {S A} (a : A) : M S A := fun s => Ret a s.

Definition bind {S A B} (m : M S A) (k : A -> M S B) : M S B :=
  fun s =>
    match m s with
    | Ret a s' => k a s'
    | Panic v s' => Panic v s'
    | Blocked s' => Blocked s'
    end.

Definition panic {S A} (v : panic_value) : M S A := fun s => Panic v s.
Definition gets {S A} (f : S -> A) : M S A := fun s => Ret (f s) s.
Definition modify {S} (f : S -> S) : M S unit := fun s => Ret tt (f s).

Declare Scope go_scope.
Delimit Scope go_scope with go.
Notation "x <- m ;; k" := (bind m (fun x => k))
  (at level 100, m at level 99, k at level 200, right associativity) : go_scope.
Notation "m ;;; k" := (bind m (fun _ => k))
  (at level 100, k at level 200, right associativity) : go_scope.

(** Fixed-width conversions. *)
Definition uint8 (x : Z) : Z := x mod 2 ^ 8.
Definition uint16 (x : Z) : Z := x mod 2 ^ 16.
Definition uint32 (x : Z) : Z := x mod 2 ^ 32.
Definition uint64 (x : Z) : Z := x mod 2 ^ 64.

(** ** Byte slices

    A slice is modelled by its contents.  [slice_from b lo] is [b[lo:]]
    and [slice_to b hi] is [b[:hi]] for a slice whose capacity equals its
    length; both panic outside [0 .. len b].  [copy_at b off src] is
    [copy(b[off:], src)] seen from [b]: it overwrites as many bytes as fit. *)
Definition zeros (n : nat) : list Byte.byte := repeat Byte.x00 n.

Definition len {A} (l : list A) : Z := Z.of_nat (length l).

Definition make_bytes {S} (n : Z) : M S (list Byte.byte) :=
  if n <? 0 then panic MakeLenOutOfRange else ret (zeros (Z.to_nat n)).

Definition slice_from {S} (b : list Byte.byte) (lo : Z) : M S (list Byte.byte) :=
  if (lo <? 0) || (len b <? lo) then panic SliceBoundsOutOfRange
  else ret (drop (Z.to_nat lo) b).

Definition slice_to {S} (b : list Byte.byte) (hi : Z) : M S (list Byte.byte) :=
  if (hi <? 0) || (len b <? hi) then panic SliceBoundsOutOfRange
  else ret (take (Z.to_nat hi) b).

Definition copy_at (b : list Byte.byte) (off : nat) (src : list Byte.byte) : list Byte.byte :=
  take off b ++ take (length b - off) src ++ drop (off + length src) b.

(** * Package netfilter: extensions.go *)
Module netfilter.

(** [stack.TargetID]: the three fields the file reads and writes. *)
Record TargetID : Type := mkTargetID {
  Name : string;
  NetworkProtocol : Z;
  Revision : Z
}.

#[global] Instance TargetID_eq_dec : EqDecision TargetID.
Proof. solve_decision. Defined.

#[global] Instance TargetID_countable : Countable TargetID :=
  inj_countable'
    (fun t => (Name t, NetworkProtocol t, Revision t))
    (fun p => mkTargetID p.1.1 p.1.2 p.2)
    (fun t => match t with mkTargetID _ _ _ => eq_refl end).

(** Go's [error] as built by [fmt.Errorf]; the format string is kept. *)
Inductive error : Type := Errorf (format : string).

(** What the file imports from [pkg/tcpip/stack] and [pkg/syserr]:
    matchers, targets and header filters are opaque values with the
    accessors the file calls. *)
Class pkg_stack : Type := {
  Matcher : Type;
  Matcher_Name : Matcher -> string;
  Target : Type;
  Target_ID : Target -> TargetID;
  IPHeaderFilter : Type;
  IPHeaderFilter_NetworkProtocol : IPHeaderFilter -> Z;
  syserr_Error : Type;
  ErrInvalidArgument : syserr_Error
}.

(** [linux.XTEntryMatch] and [linux.XTEntryTarget] as the file uses them:
    a size, a fixed-length name array and a revision. *)
Record XTEntryMatch : Type := {
  MatchSize : Z;
  XTEntryMatch_Name : list Byte.byte;
  XTEntryMatch_Revision : Z
}.

Record XTEntryTarget : Type := {
  TargetSize : Z;
  XTEntryTarget_Name : list Byte.byte;
  XTEntryTarget_Revision : Z
}.

Record KernelXTEntryMatch : Type := {
  KernelXTEntryMatch_XTEntryMatch : XTEntryMatch;
  Data : list Byte.byte
}.

(** What the file imports from [pkg/abi/linux] and [pkg/bits]: the size
    constants, the generated marshalling of the header, the conversion of
    a name array to a string, and [bits.AlignUp]. *)
Class pkg_linux : Type := {
  XT_EXTENSION_MAXNAMELEN : nat;
  SizeOfXTEntryMatch : Z;
  XTEntryMatch_SizeBytes : Z;
  XTEntryMatch_MarshalUnsafe : XTEntryMatch -> list Byte.byte;
  ExtensionName_String : list Byte.byte -> string;
  AlignUp : Z -> Z -> Z
}.

Section extensions.
Context `{!pkg_stack} `{!pkg_linux}.
Local Open Scope go_scope.

(** The [matchMaker] and [targetMaker] interfaces: an interface value is
    the record of its methods. *)
Record matchMaker : Type := {
  matchMaker_name : string;
  matchMaker_marshal : Matcher -> list Byte.byte;
  matchMaker_unmarshal : list Byte.byte -> IPHeaderFilter -> option Matcher * option error
}.

Record targetMaker : Type := {
  targetMaker_id : TargetID;
  targetMaker_marshal : Target -> list Byte.byte;
  targetMaker_unmarshal : list Byte.byte -> IPHeaderFilter -> option Target * option syserr_Error
}.

(** The package-level variables [matchMakers] and [targetMakers]. *)
Record Globals : Type := {
  matchMakers : gmap string matchMaker;
  targetMakers : gmap TargetID targetMaker
}.

Definition set_matchMakers (m : gmap string matchMaker) (g : Globals) : Globals :=
  {| matchMakers := m; targetMakers := targetMakers g |}.

Definition set_targetMakers (m : gmap TargetID targetMaker) (g : Globals) : Globals :=
  {| matchMakers := matchMakers g; targetMakers := m |}.

Definition registerMatchMaker (mm : matchMaker) : M Globals unit :=
  mms <- gets matchMakers ;;
  match mms !! matchMaker_name mm with
  | Some _ => panic (Sprintf "Multiple matches registered with name %q.")
  | None => modify (set_matchMakers (<[matchMaker_name mm := mm]> mms))
  end.

Definition marshalMatcher (matcher : Matcher) : M Globals (list Byte.byte) :=
  mms <- gets matchMakers ;;
  match mms !! Matcher_Name matcher with
  | None => panic (Sprintf "Unknown matcher of type %T.")
  | Some matchMaker => ret (matchMaker_marshal matchMaker matcher)
  end.

(** [marshalEntryMatch], statement by statement.  [nflog] only logs.  The
    header is written through the alias [buf[:entryLen]], the data through
    [buf[entryLen:]]; the value returned is [buf[size-padLen:]] with
    [padLen] fresh zero bytes appended. *)
Definition marshalEntryMatch (name : string) (data : list Byte.byte) : M Globals (list Byte.byte) :=
  let size := AlignUp (SizeOfXTEntryMatch + len data) 8 in
  let matcher :=
    {| KernelXTEntryMatch_XTEntryMatch :=
         {| MatchSize := uint16 size;
            XTEntryMatch_Name :=
              copy_at (zeros XT_EXTENSION_MAXNAMELEN) 0 (String.list_byte_of_string name);
            XTEntryMatch_Revision := 0 |};
       Data := data |} in
  buf <- make_bytes size ;;
  let entryLen := XTEntryMatch_SizeBytes in
  dst <- slice_to buf entryLen ;;
  let buf := copy_at buf 0
               (take (length dst)
                  (XTEntryMatch_MarshalUnsafe (KernelXTEntryMatch_XTEntryMatch matcher))) in
  _ <- slice_from buf entryLen ;;
  let buf := copy_at buf (Z.to_nat entryLen) (Data matcher) in
  let padLen := size - entryLen - len (Data matcher) in
  tail <- slice_from buf (size - padLen) ;;
  pad <- make_bytes padLen ;;
  ret (tail ++ pad).

Definition unmarshalMatcher (match_ : XTEntryMatch) (filter : IPHeaderFilter)
    (buf : list Byte.byte) : M Globals (option Matcher * option error) :=
  mms <- gets matchMakers ;;
  match mms !! ExtensionName_String (XTEntryMatch_Name match_) with
  | None => ret (None, Some (Errorf "unsupported matcher with name %q"))
  | Some matchMaker => ret (matchMaker_unmarshal matchMaker buf filter)
  end.

(** The body of the [range] loop of [targetRevision] for one registered
    maker, and the loop over the makers in the order they are visited. *)
Definition targetRevision_visit (name : string) (netProto : Z)
    (rev : Z) (other : targetMaker) : Z :=
  let otherID := targetMaker_id other in
  if bool_decide (name = Name otherID)
     && bool_decide (netProto = NetworkProtocol otherID)
     && (rev <? Revision otherID)
  then uint8 (Revision otherID)
  else rev.

(** Go visits the entries of a map in an unspecified order: [visited] is
    the order of one execution, a permutation of the registered makers. *)
Definition targetRevision (visited : list targetMaker) (name : string)
    (netProto : Z) (rev : Z) : M Globals (Z * bool) :=
  let tid := {| Name := name; NetworkProtocol := netProto; Revision := rev |} in
  tms <- gets targetMakers ;;
  match tms !! tid with
  | None => ret (0, false)
  | Some _ => ret (foldl (targetRevision_visit name netProto) rev visited, true)
  end.

Definition registerTargetMaker (tm : targetMaker) : M Globals unit :=
  tms <- gets targetMakers ;;
  match tms !! targetMaker_id tm with
  | Some _ => panic (Sprintf "multiple targets registered with name %q.")
  | None => modify (set_targetMakers (<[targetMaker_id tm := tm]> tms))
  end.

Definition marshalTarget (target : Target) : M Globals (list Byte.byte) :=
  tms <- gets targetMakers ;;
  match tms !! Target_ID target with
  | None => panic (Sprintf "unknown target of type %T with id %+v.")
  | Some targetMaker => ret (targetMaker_marshal targetMaker target)
  end.

Definition unmarshalTarget (target : XTEntryTarget) (filter : IPHeaderFilter)
    (buf : list Byte.byte) : M Globals (option Target * option syserr_Error) :=
  let tid := {| Name := ExtensionName_String (XTEntryTarget_Name target);
                NetworkProtocol := IPHeaderFilter_NetworkProtocol filter;
                Revision := XTEntryTarget_Revision target |} in
  tms <- gets targetMakers ;;
  match tms !! tid with
  | None => ret (None, Some ErrInvalidArgument)
  | Some targetMaker => ret (targetMaker_unmarshal targetMaker buf filter)
  end.

(** A registry built by [registerTargetMaker] alone files every maker
    under its own id. *)
Definition registry_keyed (tms : gmap TargetID targetMaker) : Prop :=
  forall k tm, tms !! k = Some tm -> targetMaker_id tm = k.

Definition same_target (name : string) (netProto : Z) (t : TargetID) : Prop :=
  Name t = name /\ NetworkProtocol t = netProto.

(** [r] is the greatest of [rev] and the revisions in [ids] registered for
    [name] and [netProto]. *)
Definition highest_revision (name : string) (netProto : Z) (rev : Z)
    (ids : TargetID -> Prop) (r : Z) : Prop :=
  rev <= r
  /\ (forall t, ids t -> same_target name netProto t -> Revision t <= r)
  /\ (r = rev \/ exists t, ids t /\ same_target name netProto t /\ Revision t = r).

End extensions.

(** ** Sample instances of the imported packages

    The x_tables ABI on Linux: [struct xt_entry_match] is a [__u16] size,
    a 29-byte name and a [__u8] revision, 32 bytes in all, laid out in
    little-endian order; a name ends at its first NUL byte. *)
Definition byte_of_Z (x : Z) : Byte.byte :=
  default Byte.x00 (Byte.of_N (Z.to_N (x mod 256))).

Fixpoint goString (b : list Byte.byte) : list Byte.byte :=
  match b with
  | [] => []
  | c :: b => if Byte.eqb c Byte.x00 then [] else c :: goString b
  end.

Definition linux_xt : pkg_linux := {|
  XT_EXTENSION_MAXNAMELEN := 29;
  SizeOfXTEntryMatch := 32;
  XTEntryMatch_SizeBytes := 32;
  XTEntryMatch_MarshalUnsafe := fun m =>
    [byte_of_Z (MatchSize m); byte_of_Z (MatchSize m / 256)]
      ++ XTEntryMatch_Name m ++ [byte_of_Z (XTEntryMatch_Revision m)];
  ExtensionName_String := fun b => String.string_of_list_byte (goString b);
  AlignUp := fun n align => Z.land (n + align - 1) (Z.lnot (align - 1))
|}.

(** Matchers and targets that are nothing but their name and id. *)
Definition stack_plain : pkg_stack := {|
  Matcher := string;
  Matcher_Name := fun m => m;
  Target := TargetID;
  Target_ID := fun t => t;
  IPHeaderFilter := Z;
  IPHeaderFilter_NetworkProtocol := fun f => f;
  syserr_Error := unit;
  ErrInvalidArgument := tt
|}.


(** A registry as package initialisation builds it: two revisions of one
    target, registered one after the other. *)
Definition redirect (rev : Z) : @targetMaker stack_plain := {|
  targetMaker_id := mkTargetID "REDIRECT" 2048 rev;
  targetMaker_marshal := fun _ => [];
  targetMaker_unmarshal := fun _ _ => (None, None)
|}.

Definition udp : @matchMaker stack_plain := {|
  matchMaker_name := "udp";
  matchMaker_marshal := fun _ => [];
  matchMaker_unmarshal := fun _ _ => (None, None)
|}.

Definition no_extensions : @Globals stack_plain :=
  {| matchMakers := ∅; targetMakers := ∅ |}.

Definition two_redirects : @Globals stack_plain :=
  final_state (registerTargetMaker (redirect 1)
    (final_state (registerTargetMaker (redirect 0) no_extensions))).


(** ** Package initialisation

    The extensions register themselves one after the other from their
    [init] functions. *)
Section initialisation.
Context `{!pkg_stack}.
Local Open Scope go_scope.

Fixpoint registerMatchMakers (mms : list matchMaker) : M Globals unit :=
  match mms with
  | [] => ret tt
  | mm :: mms => registerMatchMaker mm ;;; registerMatchMakers mms
  end.

Fixpoint registerTargetMakers (tms : list targetMaker) : M Globals unit :=
  match tms with
  | [] => ret tt
  | tm :: tms => registerTargetMaker tm ;;; registerTargetMakers tms
  end.

(** The registries before any extension is registered. *)
Definition no_makers : Globals := {| matchMakers := ∅; targetMakers := ∅ |}.

End initialisation.

(** A second matcher for the sample registries. *)
Definition tcp : @matchMaker stack_plain := {|
  matchMaker_name := "tcp";
  matchMaker_marshal := fun _ => [Byte.x01];
  matchMaker_unmarshal := fun _ _ => (None, None)
|}.

End netfilter.

(** * Package kernfs: Filesystem and Dentry *)
Module kernfs.

(** A Go pointer is [nil] or the address of an object: [option loc] where
    the code may hold [nil], [loc] for receivers and arguments that are
    objects. *)
Definition loc : Type := nat.

(** The three mutexes of the package, by the object they live in. *)
Inductive lock : Type :=
| Filesystem_mu (fs : loc)
| Filesystem_droppedDentriesMu (fs : loc)
| Dentry_dirMu (d : loc).

#[global] Instance lock_eq_dec : EqDecision lock.
Proof. solve_decision. Defined.

(** What a goroutine does that others can observe, in program order:
    mutex operations, changes of a reference count, calls into the vfs
    layer and writes to the queue of dropped dentries. *)
Inductive event : Type :=
| EvLock (l : lock)
| EvUnlock (l : lock)
| EvIncRef (d : loc)
| EvDecRef (d : loc)
| EvInodeDecRef (i : loc)
| EvInvalidateDentry (d : loc)
| EvQueueAppend (fs : loc) (d : loc)
| EvQueueReset (fs : loc).

#[global] Instance event_eq_dec : EqDecision event.
Proof. solve_decision. Defined.

(** [type Filesystem struct].  A mutex field is [true] while the running
    goroutine holds it.  [vfsfs] belongs to the vfs package and has no
    field this file reads. *)
Record Filesystem : Type := {
  droppedDentriesMu : bool;
  droppedDentries : list loc;
  mu : bool;
  nextInoMinusOne : Z
}.

(** [type Dentry struct].  [DentryRefs] is the count kept by the embedded
    reference counter, [vfsd] the [impl] back pointer that [vfsd.Init]
    sets, [children] is [None] for a nil map. *)
Record Dentry : Type := {
  vfsd : option loc;
  DentryRefs : Z;
  fs : option loc;
  flags : Z;
  parent : option loc;
  name : string;
  dirMu : bool;
  children : option (gmap string loc);
  inode : option loc
}.

(** An object behind the [Inode] interface, as far as this file calls
    it: the value [Mode()] returns and the count behind
    [IncRef]/[DecRef]. *)
Record Inode : Type := {
  Inode_Mode : Z;
  Inode_refs : Z
}.

(** Zero values.  Memory that was never written holds them.  A new
    [Dentry] carries the one reference of its creator (spec, 4.2: the
    caller already holds the reference that is transferred into the tree). *)
#[global] Instance Filesystem_zero : Inhabited Filesystem :=
  populate {| droppedDentriesMu := false; droppedDentries := [];
              mu := false; nextInoMinusOne := 0 |}.

#[global] Instance Dentry_zero : Inhabited Dentry :=
  populate {| vfsd := None; DentryRefs := 1; fs := None; flags := 0;
              parent := None; name := ""; dirMu := false;
              children := None; inode := None |}.

#[global] Instance Inode_zero : Inhabited Inode :=
  populate {| Inode_Mode := 0; Inode_refs := 1 |}.

(** The memory of the program and the trace of the running goroutine. *)
Record State : Type := {
  dentries : gmap loc Dentry;
  filesystems : gmap loc Filesystem;
  inodes : gmap loc Inode;
  trace : list event
}.

(** ** Field updates *)
Definition set_vfsd (v : option loc) (x : Dentry) : Dentry :=
  {| vfsd := v; DentryRefs := DentryRefs x; fs := fs x; flags := flags x;
     parent := parent x; name := name x; dirMu := dirMu x;
     children := children x; inode := inode x |}.
Definition set_DentryRefs (v : Z) (x : Dentry) : Dentry :=
  {| vfsd := vfsd x; DentryRefs := v; fs := fs x; flags := flags x;
     parent := parent x; name := name x; dirMu := dirMu x;
     children := children x; inode := inode x |}.
Definition set_fs (v : option loc) (x : Dentry) : Dentry :=
  {| vfsd := vfsd x; DentryRefs := DentryRefs x; fs := v; flags := flags x;
     parent := parent x; name := name x; dirMu := dirMu x;
     children := children x; inode := inode x |}.
Definition set_flags (v : Z) (x : Dentry) : Dentry :=
  {| vfsd := vfsd x; DentryRefs := DentryRefs x; fs := fs x; flags := v;
     parent := parent x; name := name x; dirMu := dirMu x;
     children := children x; inode := inode x |}.
Definition set_parent (v : option loc) (x : Dentry) : Dentry :=
  {| vfsd := vfsd x; DentryRefs := DentryRefs x; fs := fs x; flags := flags x;
     parent := v; name := name x; dirMu := dirMu x;
     children := children x; inode := inode x |}.
Definition set_name (v : string) (x : Dentry) : Dentry :=
  {| vfsd := vfsd x; DentryRefs := DentryRefs x; fs := fs x; flags := flags x;
     parent := parent x; name := v; dirMu := dirMu x;
     children := children x; inode := inode x |}.
Definition set_dirMu (v : bool) (x : Dentry) : Dentry :=
  {| vfsd := vfsd x; DentryRefs := DentryRefs x; fs := fs x; flags := flags x;
     parent := parent x; name := name x; dirMu := v;
     children := children x; inode := inode x |}.
Definition set_children (v : option (gmap string loc)) (x : Dentry) : Dentry :=
  {| vfsd := vfsd x; DentryRefs := DentryRefs x; fs := fs x; flags := flags x;
     parent := parent x; name := name x; dirMu := dirMu x;
     children := v; inode := inode x |}.
Definition set_inode (v : option loc) (x : Dentry) : Dentry :=
  {| vfsd := vfsd x; DentryRefs := DentryRefs x; fs := fs x; flags := flags x;
     parent := parent x; name := name x; dirMu := dirMu x;
     children := children x; inode := v |}.

Definition set_droppedDentriesMu (v : bool) (x : Filesystem) : Filesystem :=
  {| droppedDentriesMu := v; droppedDentries := droppedDentries x;
     mu := mu x; nextInoMinusOne := nextInoMinusOne x |}.
Definition set_droppedDentries (v : list loc) (x : Filesystem) : Filesystem :=
  {| droppedDentriesMu := droppedDentriesMu x; droppedDentries := v;
     mu := mu x; nextInoMinusOne := nextInoMinusOne x |}.
Definition set_mu (v : bool) (x : Filesystem) : Filesystem :=
  {| droppedDentriesMu := droppedDentriesMu x; droppedDentries := droppedDentries x;
     mu := v; nextInoMinusOne := nextInoMinusOne x |}.
Definition set_nextInoMinusOne (v : Z) (x : Filesystem) : Filesystem :=
  {| droppedDentriesMu := droppedDentriesMu x; droppedDentries := droppedDentries x;
     mu := mu x; nextInoMinusOne := v |}.

Definition set_Inode_refs (v : Z) (x : Inode) : Inode :=
  {| Inode_Mode := Inode_Mode x; Inode_refs := v |}.

(** ** Reading and writing memory *)
Definition dentry (s : State) (d : loc) : Dentry := dentries s !!! d.
Definition filesystem (s : State) (f : loc) : Filesystem := filesystems s !!! f.
Definition inode_obj (s : State) (i : loc) : Inode := inodes s !!! i.

Definition write_dentry (d : loc) (x : Dentry) (s : State) : State :=
  {| dentries := <[d := x]> (dentries s); filesystems := filesystems s;
     inodes := inodes s; trace := trace s |}.
Definition write_filesystem (f : loc) (x : Filesystem) (s : State) : State :=
  {| dentries := dentries s; filesystems := <[f := x]> (filesystems s);
     inodes := inodes s; trace := trace s |}.
Definition write_inode (i : loc) (x : Inode) (s : State) : State :=
  {| dentries := dentries s; filesystems := filesystems s;
     inodes := <[i := x]> (inodes s); trace := trace s |}.
Definition record (e : event) (s : State) : State :=
  {| dentries := dentries s; filesystems := filesystems s;
     inodes := inodes s; trace := trace s ++ [e] |}.

Local Open Scope go_scope.

Definition load_dentry (d : loc) : M State Dentry := gets (fun s => dentry s d).
Definition load_filesystem (f : loc) : M State Filesystem := gets (fun s => filesystem s f).
Definition update_dentry (d : loc) (f : Dentry -> Dentry) : M State unit :=
  modify (fun s => write_dentry d (f (dentry s d)) s).
Definition update_filesystem (fs : loc) (f : Filesystem -> Filesystem) : M State unit :=
  modify (fun s => write_filesystem fs (f (filesystem s fs)) s).
Definition update_inode (i : loc) (f : Inode -> Inode) : M State unit :=
  modify (fun s => write_inode i (f (inode_obj s i)) s).
Definition emit (e : event) : M State unit := modify (record e).

(** [p.f] through a pointer that may be nil. *)
Definition deref {A} (p : option A) : M State A :=
  match p with
  | Some a => ret a
  | None => panic NilPointerDereference
  end.

(** ** Mutexes

    [Lock] returns once the mutex is acquired.  Waiting for another
    goroutine to release it cannot be seen by the caller and is not
    modelled; a goroutine that locks a mutex it holds itself never
    returns. *)
Definition held (l : lock) (s : State) : bool :=
  match l with
  | Filesystem_mu f => mu (filesystem s f)
  | Filesystem_droppedDentriesMu f => droppedDentriesMu (filesystem s f)
  | Dentry_dirMu d => dirMu (dentry s d)
  end.

Definition set_held (l : lock) (b : bool) : M State unit :=
  match l with
  | Filesystem_mu f => update_filesystem f (set_mu b)
  | Filesystem_droppedDentriesMu f => update_filesystem f (set_droppedDentriesMu b)
  | Dentry_dirMu d => update_dentry d (set_dirMu b)
  end.

Definition Lock (l : lock) : M State unit :=
  fun s => if held l s then Blocked s else (set_held l true ;;; emit (EvLock l)) s.

Definition Unlock (l : lock) : M State unit :=
  set_held l false ;;; emit (EvUnlock l).

(** ** sync/atomic *)
Definition atomic_LoadUint32 (v : Z) : Z := v.
Definition atomic_AddUint64 (v delta : Z) : Z := uint64 (v + delta).

(** ** The reference counter embedded in [Dentry] *)

(** Modelled from the spec: the type [DentryRefs] (the reference-count
    primitive of section 4.1) is not among the source files.  [IncRef]
    increments the count; section 4.1 says so of a count of at least one
    and is silent about a smaller one, where the model increments too. *)
Definition DentryRefs_IncRef (d : loc) : M State unit :=
  update_dentry d (fun x => set_DentryRefs (DentryRefs x + 1) x) ;;;
  emit (EvIncRef d).

(** Modelled from the spec: [DentryRefs.DecRef(destroy)] of the missing
    reference-count primitive (section 4.1) decrements the count and, on
    the transition to zero, calls the destructor once.  The destructor is
    a closure over the local variables [locals] of its caller. *)
Definition DentryRefs_DecRef {L} (d : loc) (destroy : L -> M State L) (locals : L) : M State L :=
  update_dentry d (fun x => set_DentryRefs (DentryRefs x - 1) x) ;;;
  emit (EvDecRef d) ;;;
  x <- load_dentry d ;;
  if DentryRefs x =? 0 then destroy locals else ret locals.

(** Modelled from the spec: [EnableLeakCheck] of the missing
    reference-count primitive is leak-checking instrumentation
    (section 4.1: diagnostic only) and changes nothing the program reads. *)
Definition DentryRefs_EnableLeakCheck (d : loc) : M State unit := ret tt.

(** ** Calls through the [Inode] interface *)

(** Modelled from the spec: the implementations of the [Inode] interface
    are not among the source files.  [DecRef] follows the node contract
    (section 4.3, reference counting as in 4.1): it releases one
    reference.  What an implementation does when its own count reaches
    zero is not part of the dentry tree. *)
Definition Inode_DecRef (i : loc) : M State unit :=
  update_inode i (fun x => set_Inode_refs (Inode_refs x - 1) x) ;;;
  emit (EvInodeDecRef i).

(** [vfs.VirtualFilesystem.InvalidateDentry(ctx, d.VFSDentry())]: a call
    into the vfs package, seen here as the notification it is. *)
Definition InvalidateDentry (d : loc) : M State unit := emit (EvInvalidateDentry d).

(** The file-mode declarations the file imports from [pkg/abi/linux]. *)
Class pkg_linux : Type := {
  ModeDirectory : Z;
  ModeSymlink : Z;
  FileMode_FileType : Z -> Z
}.

(** ** Filesystem *)

Definition deferDecRef (fs : loc) (d : loc) : M State unit :=
  Lock (Filesystem_droppedDentriesMu fs) ;;;
  update_filesystem fs (fun x => set_droppedDentries (droppedDentries x ++ [d]) x) ;;;
  emit (EvQueueAppend fs d) ;;;
  Unlock (Filesystem_droppedDentriesMu fs).

Definition NextIno (fs : loc) : M State Z :=
  x <- load_filesystem fs ;;
  let v := atomic_AddUint64 (nextInoMinusOne x) 1 in
  update_filesystem fs (set_nextInoMinusOne v) ;;;
  ret v.

(** ** Dentry *)

Definition dflagsIsDir : Z := Z.shiftl 1 0.
Definition dflagsIsSymlink : Z := Z.shiftl 1 1.

Definition Init `{!pkg_linux} (d : loc) (fs : loc) (inode : loc) : M State unit :=
  update_dentry d (set_vfsd (Some d)) ;;;
  update_dentry d (set_fs (Some fs)) ;;;
  update_dentry d (set_inode (Some inode)) ;;;
  ftype <- gets (fun s => FileMode_FileType (Inode_Mode (inode_obj s inode))) ;;
  (if bool_decide (ftype = ModeDirectory)
   then update_dentry d (fun x => set_flags (Z.lor (flags x) dflagsIsDir) x)
   else ret tt) ;;;
  (if bool_decide (ftype = ModeSymlink)
   then update_dentry d (fun x => set_flags (Z.lor (flags x) dflagsIsSymlink) x)
   else ret tt) ;;;
  DentryRefs_EnableLeakCheck d.

Definition isDir (d : loc) : M State bool :=
  x <- load_dentry d ;;
  ret (negb (Z.land (atomic_LoadUint32 (flags x)) dflagsIsDir =? 0)).

Definition isSymlink (d : loc) : M State bool :=
  x <- load_dentry d ;;
  ret (negb (Z.land (atomic_LoadUint32 (flags x)) dflagsIsSymlink =? 0)).

(** [m[k]] and [delete(m, k)] on a map that may be nil. *)
Definition children_map (x : Dentry) : gmap string loc := default ∅ (children x).

Definition delete_child (k : string) (x : Dentry) : Dentry :=
  match children x with
  | Some m => set_children (Some (delete k m)) x
  | None => x
  end.

(** The closure passed to [d.DentryRefs.DecRef] in [Dentry.DecRef]; it
    captures the local variable [decRefParent]. *)
Definition DecRef_destroy (d : loc) (decRefParent : bool) : M State bool :=
  x <- load_dentry d ;;
  i <- deref (inode x) ;;
  Inode_DecRef i ;;;
  update_dentry d (set_inode None) ;;;
  x <- load_dentry d ;;
  match parent x with
  | None => ret decRefParent
  | Some p =>
      Lock (Dentry_dirMu p) ;;;
      px <- load_dentry p ;;
      (match children_map px !! name x with
       | Some _ =>
           update_dentry p (delete_child (name x)) ;;;
           InvalidateDentry d
       | None => ret tt
       end) ;;;
      Unlock (Dentry_dirMu p) ;;;
      ret true
  end.

(** [Dentry.DecRef] up to the test of [decRefParent]; the result is the
    value of [decRefParent] there. *)
Definition DecRef_locked (d : loc) : M State bool :=
  x <- load_dentry d ;;
  f <- deref (fs x) ;;
  Lock (Filesystem_mu f) ;;;
  decRefParent <- DentryRefs_DecRef d (DecRef_destroy d) false ;;
  Unlock (Filesystem_mu f) ;;;
  ret decRefParent.

(** [Dentry.DecRef] calls itself on the parent.  [DecRef_fuel n] follows
    at most [n] calls. *)
Fixpoint DecRef_fuel (n : nat) (d : loc) (s : State) : option (outcome State unit) :=
  match n with
  | O => None
  | S n =>
      match DecRef_locked d s with
      | Ret true s' =>
          match parent (dentry s' d) with
          | Some p => DecRef_fuel n p s'
          | None => Some (Panic NilPointerDereference s')
          end
      | Ret false s' => Some (Ret tt s')
      | Panic v s' => Some (Panic v s')
      | Blocked s' => Some (Blocked s')
      end
  end.

(** Every further call follows the destruction of a dentry that had a
    filesystem and whose count was one; such dentries bound the depth of
    the calls. *)
Definition last_reference (x : Dentry) : Prop :=
  DentryRefs x = 1 /\ is_Some (fs x).

Definition last_references (s : State) : gset loc :=
  dom (filter (fun kv => last_reference kv.2) (dentries s)).

Definition DecRef_depth (s : State) : nat := S (size (last_references s)).

Definition DecRef (d : loc) : M State unit :=
  fun s =>
    match DecRef_fuel (DecRef_depth s) d s with
    | Some o => o
    | None => Blocked s
    end.

(** The deferred calls of a function run when it returns, last deferred
    first, and they all run even when one of them panics; [calls] is in
    the order they run. *)
Fixpoint run_deferred (calls : list loc) : M State unit :=
  match calls with
  | [] => ret tt
  | d :: calls =>
      fun s =>
        match DecRef d s with
        | Ret _ s' => run_deferred calls s'
        | Panic v s' =>
            match run_deferred calls s' with
            | Ret _ s'' => Panic v s''
            | o => o
            end
        | Blocked s' => Blocked s'
        end
  end.

Definition processDeferredDecRefs (fs : loc) : M State unit :=
  Lock (Filesystem_droppedDentriesMu fs) ;;;
  x <- load_filesystem fs ;;
  let deferred := droppedDentries x in
  update_filesystem fs (set_droppedDentries []) ;;;
  emit (EvQueueReset fs) ;;;
  Unlock (Filesystem_droppedDentriesMu fs) ;;;
  run_deferred (rev deferred).

Definition insertChildLocked (d : loc) (name : string) (child : loc) : M State unit :=
  dir <- isDir d ;;
  if negb dir
  then panic (Sprintf "insertChildLocked called on non-directory Dentry: %+v.")
  else
    DentryRefs_IncRef d ;;;
    update_dentry child (set_parent (Some d)) ;;;
    update_dentry child (set_name name) ;;;
    x <- load_dentry d ;;
    (match children x with
     | None => update_dentry d (set_children (Some ∅))
     | Some _ => ret tt
     end) ;;;
    update_dentry d (fun x => set_children (Some (<[name := child]> (children_map x))) x).

Definition insertChild (d : loc) (name : string) (child : loc) : M State unit :=
  Lock (Dentry_dirMu d) ;;;
  insertChildLocked d name child ;;;
  Unlock (Dentry_dirMu d).

(** ** Sequences of calls *)

(** [n] calls of [NextIno] in a row, with the numbers they return. *)
Fixpoint NextIno_calls (n : nat) (fs : loc) : M State (list Z) :=
  match n with
  | O => ret []
  | S n =>
      v <- NextIno fs ;;
      vs <- NextIno_calls n fs ;;
      ret (v :: vs)
  end.

(** The calls a client can make on an initialised tree. *)
Inductive operation : Type :=
| Call_deferDecRef (fs d : loc)
| Call_processDeferredDecRefs (fs : loc)
| Call_NextIno (fs : loc)
| Call_isDir (d : loc)
| Call_isSymlink (d : loc)
| Call_DecRef (d : loc)
| Call_insertChild (d : loc) (name : string) (child : loc)
| Call_insertChildLocked (d : loc) (name : string) (child : loc).

Definition call (op : operation) : M State unit :=
  match op with
  | Call_deferDecRef fs d => deferDecRef fs d
  | Call_processDeferredDecRefs fs => processDeferredDecRefs fs
  | Call_NextIno fs => _ <- NextIno fs ;; ret tt
  | Call_isDir d => _ <- isDir d ;; ret tt
  | Call_isSymlink d => _ <- isSymlink d ;; ret tt
  | Call_DecRef d => DecRef d
  | Call_insertChild d name child => insertChild d name child
  | Call_insertChildLocked d name child => insertChildLocked d name child
  end.

Fixpoint calls (ops : list operation) : M State unit :=
  match ops with
  | [] => ret tt
  | op :: ops => call op ;;; calls ops
  end.

(** What one call of [d.DecRef] adds to the trace when the reference it
    drops is not the last one. *)
Definition DecRef_keep_events (s : State) (d : loc) : list event :=
  match fs (dentry s d) with
  | Some f => [EvLock (Filesystem_mu f); EvDecRef d; EvUnlock (Filesystem_mu f)]
  | None => []
  end.

(** The state in which the deferred calls of [processDeferredDecRefs]
    start: the queue of [f] is empty and its mutex released. *)
Definition drained (f : loc) (s : State) : State :=
  let s1 := record (EvLock (Filesystem_droppedDentriesMu f))
              (write_filesystem f (set_droppedDentriesMu true (filesystem s f)) s) in
  let s2 := record (EvQueueReset f)
              (write_filesystem f (set_droppedDentries [] (filesystem s1 f)) s1) in
  record (EvUnlock (Filesystem_droppedDentriesMu f))
    (write_filesystem f (set_droppedDentriesMu false (filesystem s2 f)) s2).

(** The state in which the destructor of [d] starts: [d.fs.mu] is held
    and the count of [d] has just become zero. *)
Definition at_zero (d f : loc) (s : State) : State :=
  record (EvDecRef d)
    (write_dentry d (set_DentryRefs 0 (dentry s d))
       (record (EvLock (Filesystem_mu f))
          (write_filesystem f (set_mu true (filesystem s f)) s))).

(** ** What the tree operations leave alone

    [stable s s']: from [s] to [s'] no dentry changed its flags or its
    filesystem, no filesystem changed its inode counter, and the trace only
    grew. *)
Definition stable (s s' : State) : Prop :=
  (forall d, flags (dentry s' d) = flags (dentry s d))
  /\ (forall d, fs (dentry s' d) = fs (dentry s d))
  /\ (forall f, nextInoMinusOne (filesystem s' f) = nextInoMinusOne (filesystem s f))
  /\ trace s `prefix_of` trace s'.

Definition keeps {A} (m : M State A) : Prop :=
  forall s, stable s (final_state (m s)).

(** ** Statements about [insertChild]

    What is said of a call [insertChild(d, name, child)] that returns:
    the child is bound to the name in the map of [d] and points back to
    [d] under that name, and [d] has one reference more.
    [insertChild_keeps_child_count] adds that the count of the child is
    the one it had. *)
Definition insertChild_links (s : State) (d : loc) (nm : string) (child : loc)
    (s' : State) : Prop :=
  children_map (dentry s' d) !! nm = Some child
  /\ parent (dentry s' child) = Some d
  /\ name (dentry s' child) = nm
  /\ DentryRefs (dentry s' d) = DentryRefs (dentry s d) + 1.

Definition insertChild_keeps_child_count (s : State) (child : loc) (s' : State) : Prop :=
  DentryRefs (dentry s' child) = DentryRefs (dentry s child).

(** ** Sample trees *)

(** The file-mode constants of Linux: [S_IFMT], [S_IFDIR], [S_IFLNK]. *)
Definition linux_modes : pkg_linux := {|
  ModeDirectory := 16384;
  ModeSymlink := 40960;
  FileMode_FileType := fun m => Z.land m 61440
|}.

Definition sample_dentry (refs : Z) (flags_ : Z) (parent_ : option loc)
    (name_ : string) (children_ : option (gmap string loc)) (inode_ : loc) : Dentry :=
  {| vfsd := None; DentryRefs := refs; fs := Some 0%nat; flags := flags_;
     parent := parent_; name := name_; dirMu := false;
     children := children_; inode := Some inode_ |}.

(** A directory at address 1 whose entry ["x"] was invalidated and looked
    up again: the old dentry 2 is out of the map of its parent but still
    referenced once, the new dentry 3 is bound to the name. *)
Definition replaced_entry : State :=
  {| dentries :=
       <[1%nat := sample_dentry 3 dflagsIsDir None "" (Some {["x" := 3%nat]}) 10%nat]>
         (<[2%nat := sample_dentry 1 0 (Some 1%nat) "x" None 11%nat]>
            (<[3%nat := sample_dentry 1 0 (Some 1%nat) "x" None 12%nat]> ∅));
     filesystems := ∅;
     inodes := <[10%nat := {| Inode_Mode := 16877; Inode_refs := 1 |}]>
                 (<[11%nat := {| Inode_Mode := 33188; Inode_refs := 1 |}]>
                    (<[12%nat := {| Inode_Mode := 33188; Inode_refs := 1 |}]> ∅));
     trace := [] |}.

(** The tree before the two lookups of ["x"]: an empty directory at
    address 1 and two initialised dentries, 2 and 3, not yet linked. *)
Definition before_lookups : State :=
  {| dentries :=
       <[1%nat := sample_dentry 1 dflagsIsDir None "" None 10%nat]>
         (<[2%nat := sample_dentry 1 0 None "" None 11%nat]>
            (<[3%nat := sample_dentry 1 0 None "" None 12%nat]> ∅));
     filesystems := ∅;
     inodes := inodes replaced_entry;
     trace := [] |}.

(** The same tree with dentries 2 and 3 waiting in the queue of dropped
    dentries of filesystem 0, each with references to spare. *)
Definition queued_entries : State :=
  {| dentries :=
       <[1%nat := sample_dentry 3 dflagsIsDir None "" (Some {["x" := 3%nat]}) 10%nat]>
         (<[2%nat := sample_dentry 3 0 (Some 1%nat) "x" None 11%nat]>
            (<[3%nat := sample_dentry 2 0 (Some 1%nat) "x" None 12%nat]> ∅));
     filesystems :=
       {[ 0%nat := {| droppedDentriesMu := false; droppedDentries := [2%nat; 3%nat; 2%nat];
                      mu := false; nextInoMinusOne := 0 |} ]};
     inodes := ∅;
     trace := [] |}.


(** ** Accessors and inotify hooks

    [VFSFilesystem] and [VFSDentry] return the address of a field embedded
    at the start of the object, [Dentry_Inode] is the method [Inode], and
    the three inotify methods are empty. *)
Definition VFSFilesystem (fs : loc) : M State loc := ret fs.
Definition VFSDentry (d : loc) : M State loc := ret d.

Definition Dentry_Inode (d : loc) : M State (option loc) :=
  x <- load_dentry d ;;
  ret (inode x).

Definition InotifyWithParent (d : loc) (events cookie : Z) (et : Z) : M State unit := ret tt.
Definition Watches (d : loc) : M State (option loc) := ret None.
Definition OnZeroWatches (d : loc) : M State unit := ret tt.

(** Several [deferDecRef] calls in a row. *)
Fixpoint deferDecRefs (fs : loc) (ds : list loc) : M State unit :=
  match ds with
  | [] => ret tt
  | d :: ds => deferDecRef fs d ;;; deferDecRefs fs ds
  end.

(** What these calls add to the trace. *)
Definition deferDecRefs_events (fs : loc) (ds : list loc) : list event :=
  flat_map (fun d => [EvLock (Filesystem_droppedDentriesMu fs); EvQueueAppend fs d;
                      EvUnlock (Filesystem_droppedDentriesMu fs)]) ds.

(** ** What a drop can do

    [only_drops s s']: from [s] to [s'] no count of a dentry or of an
    inode grew, no dentry changed its parent or its name, no map of
    children gained or changed a binding, and a dentry points to the inode
    it pointed to or to none. *)
Definition only_drops (s s' : State) : Prop :=
  (forall k, DentryRefs (dentry s' k) <= DentryRefs (dentry s k))
  /\ (forall k, parent (dentry s' k) = parent (dentry s k))
  /\ (forall k, name (dentry s' k) = name (dentry s k))
  /\ (forall k, children_map (dentry s' k) ⊆ children_map (dentry s k))
  /\ (forall i, Inode_refs (inode_obj s' i) <= Inode_refs (inode_obj s i))
  /\ (forall k, inode (dentry s' k) = inode (dentry s k) \/ inode (dentry s' k) = None).

Definition drops {A} (m : M State A) : Prop :=
  forall s, only_drops s (final_state (m s)).

(** ** Chains of last references

    [last_chain s ds]: every dentry of [ds] is initialised and holds one
    reference, each is the parent of the one before it, and the last has
    no parent; no mutex on the way is held. *)
Fixpoint last_chain (s : State) (ds : list loc) : Prop :=
  match ds with
  | [] => True
  | d :: ds =>
      DentryRefs (dentry s d) = 1
      /\ (exists f, fs (dentry s d) = Some f /\ mu (filesystem s f) = false)
      /\ is_Some (inode (dentry s d))
      /\ dirMu (dentry s d) = false
      /\ parent (dentry s d) = head ds
      /\ last_chain s ds
  end.

(** A directory 1 held only by its child 2, which is held only by its
    child 3: a chain of three last references. *)
Definition three_deep : State :=
  {| dentries :=
       <[1%nat := sample_dentry 1 dflagsIsDir None "" (Some {["a" := 2%nat]}) 10%nat]>
         (<[2%nat := sample_dentry 1 dflagsIsDir (Some 1%nat) "a" (Some {["b" := 3%nat]}) 11%nat]>
            (<[3%nat := sample_dentry 1 0 (Some 2%nat) "b" None 12%nat]> ∅));
     filesystems := ∅;
     inodes := ∅;
     trace := [] |}.

End kernfs.

(** * Properties of the netfilter extension registry *)
Module netfilter_facts.
Import netfilter.

Section facts.
Context `{!pkg_stack} `{!pkg_linux}.

Lemma length_zeros n : length (zeros n) = n.
Proof. apply repeat_length. Qed.

Lemma drop_zeros k n : drop k (zeros n) = zeros (n - k).
Proof.
  unfold zeros. revert k. induction n as [|n IH]; intros [|k]; simpl; auto.
Qed.

Lemma zeros_app a b : zeros a ++ zeros b = zeros (a + b).
Proof. unfold zeros. now rewrite repeat_app. Qed.

Lemma length_copy_at b off src :
  (off <= length b)%nat -> length (copy_at b off src) = length b.
Proof.
  intros Hoff. unfold copy_at.
  rewrite !length_app, !length_take, length_drop. lia.
Qed.

(** Bytes of [b] behind what [copy_at] overwrites are still those of [b]. *)
Lemma drop_copy_at b off src k :
  (off + length src <= k)%nat -> (k <= length b)%nat ->
  drop k (copy_at b off src) = drop k b.
Proof.
  intros Hk Hb. unfold copy_at.
  rewrite drop_app_ge by (rewrite length_take; lia).
  rewrite length_take.
  rewrite drop_app_ge by (rewrite length_take; lia).
  rewrite length_take, drop_drop. f_equal. lia.
Qed.

Lemma bind_ret_l {S A B} (a : A) (k : A -> M S B) : bind (ret a) k = k a.
Proof. reflexivity. Qed.

Lemma make_bytes_ret {S} n : 0 <= n -> @make_bytes S n = ret (zeros (Z.to_nat n)).
Proof. intros Hn. unfold make_bytes. destruct (Z.ltb_spec n 0); [lia | reflexivity]. Qed.

Lemma slice_from_ret {S} b lo :
  0 <= lo <= len b -> @slice_from S b lo = ret (drop (Z.to_nat lo) b).
Proof.
  intros Hlo. unfold slice_from.
  destruct (Z.ltb_spec lo 0); [lia|]. destruct (Z.ltb_spec (len b) lo); [lia | reflexivity].
Qed.

Lemma slice_to_ret {S} b hi :
  0 <= hi <= len b -> @slice_to S b hi = ret (take (Z.to_nat hi) b).
Proof.
  intros Hhi. unfold slice_to.
  destruct (Z.ltb_spec hi 0); [lia|]. destruct (Z.ltb_spec (len b) hi); [lia | reflexivity].
Qed.

(** What [marshalEntryMatch] returns when the header size is the size of
    the marshalled header and [AlignUp] rounds up to the next multiple
    within eight: nothing but zero bytes, twice the padding. *)
Lemma marshalEntryMatch_padding_only (name : string) (data : list Byte.byte) (g : Globals) :
  XTEntryMatch_SizeBytes = SizeOfXTEntryMatch ->
  0 <= SizeOfXTEntryMatch ->
  (forall n, n <= AlignUp n 8 < n + 8) ->
  let padLen := AlignUp (SizeOfXTEntryMatch + len data) 8 - SizeOfXTEntryMatch - len data in
  marshalEntryMatch name data g = Ret (zeros (Z.to_nat (2 * padLen))) g.
Proof.
  intros Hsz Hnn Hal padLen.
  pose proof (Hal (SizeOfXTEntryMatch + len data)) as Hsize.
  assert (Hlen : 0 <= len data) by (unfold len; lia).
  unfold marshalEntryMatch. rewrite Hsz.
  set (size := AlignUp (SizeOfXTEntryMatch + len data) 8) in *.
  cbn [Data KernelXTEntryMatch_XTEntryMatch]. fold padLen.
  assert (Hpad : 0 <= padLen < 8) by (unfold padLen; lia).
  set (hdr := XTEntryMatch_MarshalUnsafe _).
  rewrite make_bytes_ret, bind_ret_l by lia.
  assert (Hlz : len (zeros (Z.to_nat size)) = size)
    by (unfold len; rewrite length_zeros; lia).
  rewrite slice_to_ret, bind_ret_l by lia.
  set (buf1 := copy_at (zeros (Z.to_nat size)) 0 _).
  assert (Hb1 : length buf1 = Z.to_nat size).
  { unfold buf1. rewrite length_copy_at; [apply length_zeros | lia]. }
  assert (Hl1 : len buf1 = size) by (unfold len; rewrite Hb1; lia).
  rewrite slice_from_ret, bind_ret_l by lia.
  set (buf2 := copy_at buf1 (Z.to_nat SizeOfXTEntryMatch) data).
  assert (Hb2 : length buf2 = Z.to_nat size).
  { unfold buf2. rewrite length_copy_at; [exact Hb1 | lia]. }
  assert (Hl2 : len buf2 = size) by (unfold len; rewrite Hb2; lia).
  rewrite slice_from_ret, bind_ret_l by lia.
  rewrite make_bytes_ret, bind_ret_l by lia.
  unfold ret. f_equal.
  assert (Hp : padLen = size - SizeOfXTEntryMatch - len data) by reflexivity.
  assert (Htail : drop (Z.to_nat (size - padLen)) buf2 = zeros (Z.to_nat padLen)).
  { unfold buf2. clearbody padLen size. unfold len in *.
    rewrite drop_copy_at by lia.
    unfold buf1.
    rewrite drop_copy_at by (rewrite ?length_take, ?length_zeros; lia).
    rewrite drop_zeros. f_equal. lia. }
  rewrite Htail, zeros_app. f_equal. lia.
Qed.


(** ** Registration *)

Lemma registerMatchMaker_fresh (mm : matchMaker) (g : Globals) :
  matchMakers g !! matchMaker_name mm = None ->
  registerMatchMaker mm g
  = Ret tt (set_matchMakers (<[matchMaker_name mm := mm]> (matchMakers g)) g).
Proof. intros Hno. unfold registerMatchMaker, bind, gets. now rewrite Hno. Qed.

Lemma registerMatchMaker_taken (mm old : matchMaker) (g : Globals) :
  matchMakers g !! matchMaker_name mm = Some old ->
  registerMatchMaker mm g
  = Panic (Sprintf "Multiple matches registered with name %q.") g.
Proof. intros Hold. unfold registerMatchMaker, bind, gets. now rewrite Hold. Qed.

Lemma registerTargetMaker_fresh (tm : targetMaker) (g : Globals) :
  targetMakers g !! targetMaker_id tm = None ->
  registerTargetMaker tm g
  = Ret tt (set_targetMakers (<[targetMaker_id tm := tm]> (targetMakers g)) g).
Proof. intros Hno. unfold registerTargetMaker, bind, gets. now rewrite Hno. Qed.

Lemma registerTargetMaker_taken (tm old : targetMaker) (g : Globals) :
  targetMakers g !! targetMaker_id tm = Some old ->
  registerTargetMaker tm g
  = Panic (Sprintf "multiple targets registered with name %q.") g.
Proof. intros Hold. unfold registerTargetMaker, bind, gets. now rewrite Hold. Qed.

(** Registration keeps every maker filed under its own id. *)
Lemma registry_keyed_empty : registry_keyed ∅.
Proof. intros k tm Hk. now rewrite lookup_empty in Hk. Qed.

Lemma registerTargetMaker_keyed (tm : targetMaker) (g g' : Globals) :
  registry_keyed (targetMakers g) ->
  registerTargetMaker tm g = Ret tt g' ->
  registry_keyed (targetMakers g').
Proof.
  intros Hkeyed Hreg.
  destruct (targetMakers g !! targetMaker_id tm) as [old|] eqn:Hlook.
  - rewrite (registerTargetMaker_taken _ _ _ Hlook) in Hreg. discriminate.
  - rewrite (registerTargetMaker_fresh _ _ Hlook) in Hreg.
    injection Hreg as <-. intros k tm' Hk. cbn in Hk.
    destruct (decide (targetMaker_id tm = k)) as [<-|Hne].
    + rewrite lookup_insert_eq in Hk. now injection Hk as <-.
    + rewrite lookup_insert_ne in Hk by exact Hne. eauto.
Qed.

(** ** The loop of [targetRevision] *)

Lemma targetRevision_visit_spec name netProto rev other :
  0 <= Revision (targetMaker_id other) < 256 ->
  targetRevision_visit name netProto rev other
  = if decide (same_target name netProto (targetMaker_id other))
    then Z.max rev (Revision (targetMaker_id other))
    else rev.
Proof.
  intros Hrange. unfold targetRevision_visit, same_target.
  destruct (decide _) as [[Hn Hp]|Hno].
  - rewrite !bool_decide_eq_true_2 by congruence. simpl.
    destruct (Z.ltb_spec rev (Revision (targetMaker_id other))).
    + unfold uint8. rewrite Z.mod_small by lia. lia.
    + lia.
  - destruct (bool_decide_reflect (name = Name (targetMaker_id other))); simpl; auto.
    destruct (bool_decide_reflect (netProto = NetworkProtocol (targetMaker_id other)));
      simpl; auto.
    exfalso. apply Hno. split; congruence.
Qed.

Lemma targetRevision_loop_highest name netProto (visited : list targetMaker) rev :
  (forall tm, In tm visited -> 0 <= Revision (targetMaker_id tm) < 256) ->
  highest_revision name netProto rev
    (fun t => exists tm, In tm visited /\ targetMaker_id tm = t)
    (foldl (targetRevision_visit name netProto) rev visited).
Proof.
  revert rev. induction visited as [|other visited IH]; intros rev Hrange; simpl.
  - repeat split; [lia | | now left].
    intros t (tm & [] & _).
  - rewrite targetRevision_visit_spec by (apply Hrange; now left).
    set (rev' := if decide _ then _ else rev).
    assert (Hrev' : rev <= rev') by (unfold rev'; destruct (decide _); lia).
    destruct (IH rev') as (Hle & Hub & Hin).
    { intros tm Htm. apply Hrange. now right. }
    split; [lia|]. split.
    + intros t (tm & [<-|Htm] & <-) Hsame.
      * transitivity rev'; [|exact Hle].
        unfold rev'. destruct (decide _); [lia | contradiction].
      * apply Hub; eauto.
    + destruct Hin as [->|(t & (tm & Htm & <-) & Hsame & Hr)].
      * unfold rev'. destruct (decide _) as [Hsame|_]; [|now left].
        destruct (Z.max_spec rev (Revision (targetMaker_id other))) as [[_ ->]|[_ ->]];
          [|now left].
        right. exists (targetMaker_id other). split; [|split]; auto.
        exists other. split; [now left | reflexivity].
      * right. exists (targetMaker_id tm). split; [|split]; auto.
        exists tm. split; [now right | reflexivity].
Qed.


(** C9. [targetRevision] answers [(0, false)] when the exact id
    [{name, netProto, rev}] is not registered, whatever else is; otherwise
    it answers [(r, true)] with [r] the greatest of [rev] and the revisions
    registered for [name] and [netProto], in whichever order the map is
    visited.  Registered revisions are [uint8] values and every maker is
    filed under its own id, as [registerTargetMaker] files it. *)
Theorem targetRevision_highest (g : Globals) (visited : list targetMaker)
    (name : string) (netProto rev : Z) :
  registry_keyed (targetMakers g) ->
  (forall k tm, targetMakers g !! k = Some tm -> 0 <= Revision k < 256) ->
  Permutation visited (map snd (map_to_list (targetMakers g))) ->
  (targetMakers g !! mkTargetID name netProto rev = None ->
   targetRevision visited name netProto rev g = Ret (0, false) g)
  /\ (is_Some (targetMakers g !! mkTargetID name netProto rev) ->
      exists r,
        targetRevision visited name netProto rev g = Ret (r, true) g
        /\ highest_revision name netProto rev
             (fun t => is_Some (targetMakers g !! t)) r).
Proof.
  intros Hkeyed Hrange Hperm. split.
  - intros Hno. unfold targetRevision, bind, gets. now rewrite Hno.
  - intros [tm0 Hreg]. eexists. split.
    { unfold targetRevision, bind, gets. rewrite Hreg. reflexivity. }
    assert (Hin : forall tm, In tm visited ->
              targetMakers g !! targetMaker_id tm = Some tm).
    { intros tm Htm.
      apply (Permutation_in _ Hperm) in Htm.
      apply in_map_iff in Htm as ([k tm'] & Heq & Hk). simpl in Heq. subst tm'.
      apply list_elem_of_In, elem_of_map_to_list in Hk.
      now rewrite (Hkeyed _ _ Hk). }
    destruct (targetRevision_loop_highest name netProto visited rev)
      as (Hle & Hub & Hmax).
    { intros tm Htm. eapply Hrange, Hin, Htm. }
    split; [exact Hle|]. split.
    + intros t [tm Ht] Hsame. apply Hub; [|exact Hsame].
      exists tm. split; [|now apply Hkeyed].
      apply (Permutation_in _ (Permutation_sym Hperm)).
      apply in_map_iff. exists (t, tm). split; [reflexivity|].
      now apply list_elem_of_In, elem_of_map_to_list.
    + destruct Hmax as [->|(t & (tm & Htm & <-) & Hsame & Hr)]; [now left|].
      right. exists (targetMaker_id tm). split; [|split]; auto.
      exists tm. now apply Hin.
Qed.

(** C10. An extension that is not registered is an error value when it
    is unmarshalled and a panic when it is marshalled: [unmarshalMatcher]
    returns a nil matcher and an error, [unmarshalTarget] returns a nil
    target and [ErrInvalidArgument], [marshalMatcher] and [marshalTarget]
    panic.  None of them changes the registries. *)
Theorem unregistered_extension (g : Globals) :
  (forall (m : XTEntryMatch) (filter : IPHeaderFilter) (buf : list Byte.byte),
     matchMakers g !! ExtensionName_String (XTEntryMatch_Name m) = None ->
     exists e, unmarshalMatcher m filter buf g = Ret (None, Some e) g)
  /\ (forall (t : XTEntryTarget) (filter : IPHeaderFilter) (buf : list Byte.byte),
        targetMakers g !! mkTargetID (ExtensionName_String (XTEntryTarget_Name t))
                            (IPHeaderFilter_NetworkProtocol filter)
                            (XTEntryTarget_Revision t) = None ->
        unmarshalTarget t filter buf g = Ret (None, Some ErrInvalidArgument) g)
  /\ (forall matcher : Matcher,
        matchMakers g !! Matcher_Name matcher = None ->
        exists v, marshalMatcher matcher g = Panic v g)
  /\ (forall target : Target,
        targetMakers g !! Target_ID target = None ->
        exists v, marshalTarget target g = Panic v g).
Proof.
  repeat split.
  - intros m filter buf Hno. eexists.
    unfold unmarshalMatcher, bind, gets. rewrite Hno. reflexivity.
  - intros t filter buf Hno.
    unfold unmarshalTarget, bind, gets. rewrite Hno. reflexivity.
  - intros matcher Hno. eexists.
    unfold marshalMatcher, bind, gets. rewrite Hno. reflexivity.
  - intros target Hno. eexists.
    unfold marshalTarget, bind, gets. rewrite Hno. reflexivity.
Qed.

End facts.

(** ** On the Linux ABI *)

Lemma AlignUp_linux_xt (n : Z) : n <= @AlignUp linux_xt n 8 < n + 8.
Proof.
  cbn [AlignUp linux_xt].
  replace (8 - 1) with (Z.ones 3) by reflexivity.
  rewrite <- Z.ldiff_land, Z.ldiff_ones_r by lia.
  rewrite Z.shiftr_div_pow2, Z.shiftl_mul_pow2 by lia.
  change (2 ^ 3) with 8.
  pose proof (Z.div_mod (n + 8 - 1) 8 ltac:(lia)) as Hdm.
  pose proof (Z.mod_pos_bound (n + 8 - 1) 8 ltac:(lia)) as Hb.
  lia.
Qed.

(** C4, as the code has it.  With the sizes of the Linux ABI,
    [marshalEntryMatch] returns fewer than sixteen bytes, all of them zero,
    for every name and every data: the slice it appends the padding to is
    [buf[size-padLen:]], the padding itself, so neither the header nor the
    data is in the value returned. *)
Theorem marshalEntryMatch_returns_padding
    `{!pkg_stack} (name : string) (data : list Byte.byte) (g : Globals) :
  exists out,
    @marshalEntryMatch _ linux_xt name data g = Ret out g
    /\ out = zeros (length out)
    /\ (length out < 16)%nat
    /\ (length out < Z.to_nat (@SizeOfXTEntryMatch linux_xt) + length data)%nat.
Proof.
  eexists. split.
  { apply (@marshalEntryMatch_padding_only _ linux_xt);
      [reflexivity | cbn; lia | apply AlignUp_linux_xt]. }
  pose proof (AlignUp_linux_xt (@SizeOfXTEntryMatch linux_xt + len data)) as Hal.
  rewrite length_zeros. split; [reflexivity|].
  cbn [SizeOfXTEntryMatch linux_xt] in *. unfold len in *. lia.
Qed.

(** With an empty payload nothing at all is returned, where the header
    alone has 32 bytes. *)
Example marshalEntryMatch_udp_empty :
  @marshalEntryMatch stack_plain linux_xt "udp" []
    {| matchMakers := ∅; targetMakers := ∅ |}
  = Ret [] {| matchMakers := ∅; targetMakers := ∅ |}.
Proof. reflexivity. Qed.


Lemma two_redirects_lookup (k : TargetID) (tm : @targetMaker stack_plain) :
  targetMakers two_redirects !! k = Some tm ->
  (k = mkTargetID "REDIRECT" 2048 1 /\ tm = redirect 1)
  \/ (k = mkTargetID "REDIRECT" 2048 0 /\ tm = redirect 0).
Proof.
  change (targetMakers two_redirects)
    with (<[mkTargetID "REDIRECT" 2048 1 := redirect 1]>
            (<[mkTargetID "REDIRECT" 2048 0 := redirect 0]>
               (∅ : gmap TargetID (@targetMaker stack_plain)))).
  intros Hk.
  apply lookup_insert_Some in Hk as [[<- <-]|[_ Hk]]; [now left|].
  apply lookup_insert_Some in Hk as [[<- <-]|[_ Hk]]; [now right|].
  now rewrite lookup_empty in Hk.
Qed.

(** Asking for revision 0 when revisions 0 and 1 are registered. *)
Lemma targetRevision_highest_witness :
  exists r,
    @targetRevision stack_plain [redirect 1; redirect 0] "REDIRECT" 2048 0 two_redirects
    = Ret (r, true) two_redirects
    /\ @highest_revision "REDIRECT" 2048 0
         (fun t => is_Some (targetMakers two_redirects !! t)) r.
Proof.
  apply (@targetRevision_highest stack_plain two_redirects
           [redirect 1; redirect 0] "REDIRECT" 2048 0).
  - intros k tm Hk.
    destruct (two_redirects_lookup k tm Hk) as [[-> ->]|[-> ->]]; reflexivity.
  - intros k tm Hk.
    destruct (two_redirects_lookup k tm Hk) as [[-> ->]|[-> ->]]; simpl; lia.
  - vm_compute. apply Permutation_refl || apply perm_swap.
  - vm_compute. eexists. reflexivity.
Defined.


(** Either order of the visit gives revision 1; revision 2, which is not
    registered, is refused although revisions 0 and 1 are. *)
Example targetRevision_either_order :
  @targetRevision stack_plain [redirect 1; redirect 0] "REDIRECT" 2048 0 two_redirects
  = Ret (1, true) two_redirects
  /\ @targetRevision stack_plain [redirect 0; redirect 1] "REDIRECT" 2048 0 two_redirects
     = Ret (1, true) two_redirects
  /\ @targetRevision stack_plain [redirect 0; redirect 1] "REDIRECT" 2048 2 two_redirects
     = Ret (0, false) two_redirects.
Proof. repeat split; vm_compute; reflexivity. Qed.

(** The matcher ["tcp"] and the target ["DNAT"] against registries that
    do not have them. *)
Lemma unregistered_extension_witness :
  (exists e,
     @unmarshalMatcher stack_plain linux_xt
       {| MatchSize := 32; XTEntryMatch_Name := String.list_byte_of_string "tcp";
          XTEntryMatch_Revision := 0 |} 2048 []
       no_extensions
     = Ret (None, Some e) no_extensions)
  /\ @unmarshalTarget stack_plain linux_xt
       {| TargetSize := 32; XTEntryTarget_Name := String.list_byte_of_string "DNAT";
          XTEntryTarget_Revision := 0 |} 2048 []
       two_redirects
     = Ret (None, Some tt) two_redirects
  /\ (exists v, @marshalMatcher stack_plain "tcp" no_extensions = Panic v no_extensions)
  /\ (exists v, @marshalTarget stack_plain (mkTargetID "DNAT" 2048 0) two_redirects
                = Panic v two_redirects).
Proof.
  destruct (@unregistered_extension stack_plain linux_xt no_extensions)
    as (Hm & _ & Hmm & _).
  destruct (@unregistered_extension stack_plain linux_xt two_redirects)
    as (_ & Ht & _ & Htt).
  split; [|split; [|split]].
  - apply Hm. reflexivity.
  - apply Ht. reflexivity.
  - apply Hmm. reflexivity.
  - apply Htt. reflexivity.
Defined.


(** ** Registration and use *)

Section registration.
Context `{!pkg_stack} `{!pkg_linux}.

(** X1.  A matcher that was registered is the one used: [marshalMatcher]
    and [unmarshalMatcher] hand matchers of that name to its maker, a
    second registration of the name panics, and the registration touched
    no other name and no target. *)
Theorem registered_matcher_is_used (g g' : Globals) (mm : matchMaker) :
  registerMatchMaker mm g = Ret tt g' ->
  (forall m : Matcher,
     Matcher_Name m = matchMaker_name mm ->
     marshalMatcher m g' = Ret (matchMaker_marshal mm m) g')
  /\ (forall (e : XTEntryMatch) (filter : IPHeaderFilter) (buf : list Byte.byte),
        ExtensionName_String (XTEntryMatch_Name e) = matchMaker_name mm ->
        unmarshalMatcher e filter buf g' = Ret (matchMaker_unmarshal mm buf filter) g')
  /\ (forall mm' : matchMaker,
        matchMaker_name mm' = matchMaker_name mm ->
        exists v, registerMatchMaker mm' g' = Panic v g')
  /\ (forall nm, nm <> matchMaker_name mm -> matchMakers g' !! nm = matchMakers g !! nm)
  /\ targetMakers g' = targetMakers g.
Proof.
  intros Hreg.
  destruct (matchMakers g !! matchMaker_name mm) as [old|] eqn:Hlook.
  { rewrite (registerMatchMaker_taken _ _ _ Hlook) in Hreg. discriminate. }
  rewrite (registerMatchMaker_fresh _ _ Hlook) in Hreg. injection Hreg as <-.
  assert (Hnew : matchMakers (set_matchMakers (<[matchMaker_name mm := mm]> (matchMakers g)) g)
                 !! matchMaker_name mm = Some mm) by apply lookup_insert_eq.
  repeat match goal with |- _ /\ _ => split end.
  - intros m Hm. unfold marshalMatcher, bind, gets. now rewrite Hm, Hnew.
  - intros e filter buf He. unfold unmarshalMatcher, bind, gets. now rewrite He, Hnew.
  - intros mm' Hname. eexists. eapply registerMatchMaker_taken. rewrite Hname. exact Hnew.
  - intros nm Hnm. cbn. now rewrite lookup_insert_ne.
  - reflexivity.
Qed.

(** X2.  The same for targets, which are filed by name, protocol and
    revision: only the exact id is served by the maker. *)
Theorem registered_target_is_used (g g' : Globals) (tm : targetMaker) :
  registerTargetMaker tm g = Ret tt g' ->
  (forall t : Target,
     Target_ID t = targetMaker_id tm ->
     marshalTarget t g' = Ret (targetMaker_marshal tm t) g')
  /\ (forall (e : XTEntryTarget) (filter : IPHeaderFilter) (buf : list Byte.byte),
        mkTargetID (ExtensionName_String (XTEntryTarget_Name e))
                   (IPHeaderFilter_NetworkProtocol filter)
                   (XTEntryTarget_Revision e) = targetMaker_id tm ->
        unmarshalTarget e filter buf g' = Ret (targetMaker_unmarshal tm buf filter) g')
  /\ (forall tm' : targetMaker,
        targetMaker_id tm' = targetMaker_id tm ->
        exists v, registerTargetMaker tm' g' = Panic v g')
  /\ (forall k, k <> targetMaker_id tm -> targetMakers g' !! k = targetMakers g !! k)
  /\ matchMakers g' = matchMakers g.
Proof.
  intros Hreg.
  destruct (targetMakers g !! targetMaker_id tm) as [old|] eqn:Hlook.
  { rewrite (registerTargetMaker_taken _ _ _ Hlook) in Hreg. discriminate. }
  rewrite (registerTargetMaker_fresh _ _ Hlook) in Hreg. injection Hreg as <-.
  assert (Hnew : targetMakers (set_targetMakers (<[targetMaker_id tm := tm]> (targetMakers g)) g)
                 !! targetMaker_id tm = Some tm) by apply lookup_insert_eq.
  repeat match goal with |- _ /\ _ => split end.
  - intros t Ht. unfold marshalTarget, bind, gets. now rewrite Ht, Hnew.
  - intros e filter buf He. unfold unmarshalTarget, bind, gets. now rewrite He, Hnew.
  - intros tm' Hid. eexists. eapply registerTargetMaker_taken. rewrite Hid. exact Hnew.
  - intros k Hk. cbn. now rewrite lookup_insert_ne.
  - reflexivity.
Qed.

(** X3.  Registrations of extensions that do not collide commute: the
    registries do not depend on the order in which the packages are
    initialised. *)
Theorem registration_order_is_irrelevant (g : Globals) :
  (forall a b : matchMaker,
     matchMaker_name a <> matchMaker_name b ->
     matchMakers g !! matchMaker_name a = None ->
     matchMakers g !! matchMaker_name b = None ->
     exists g',
       bind (registerMatchMaker a) (fun _ => registerMatchMaker b) g = Ret tt g'
       /\ bind (registerMatchMaker b) (fun _ => registerMatchMaker a) g = Ret tt g')
  /\ (forall a b : targetMaker,
        targetMaker_id a <> targetMaker_id b ->
        targetMakers g !! targetMaker_id a = None ->
        targetMakers g !! targetMaker_id b = None ->
        exists g',
          bind (registerTargetMaker a) (fun _ => registerTargetMaker b) g = Ret tt g'
          /\ bind (registerTargetMaker b) (fun _ => registerTargetMaker a) g = Ret tt g')
  /\ (forall (a : matchMaker) (b : targetMaker),
        matchMakers g !! matchMaker_name a = None ->
        targetMakers g !! targetMaker_id b = None ->
        exists g',
          bind (registerMatchMaker a) (fun _ => registerTargetMaker b) g = Ret tt g'
          /\ bind (registerTargetMaker b) (fun _ => registerMatchMaker a) g = Ret tt g').
Proof.
  repeat match goal with |- _ /\ _ => split end.
  - intros a b Hne Ha Hb. eexists. split.
    + unfold bind. rewrite (registerMatchMaker_fresh a g Ha).
      rewrite registerMatchMaker_fresh by (cbn; now rewrite lookup_insert_ne).
      reflexivity.
    + unfold bind. rewrite (registerMatchMaker_fresh b g Hb).
      rewrite registerMatchMaker_fresh by (cbn; now rewrite lookup_insert_ne).
      cbn. unfold set_matchMakers. cbn. now rewrite insert_insert_ne.
  - intros a b Hne Ha Hb. eexists. split.
    + unfold bind. rewrite (registerTargetMaker_fresh a g Ha).
      rewrite registerTargetMaker_fresh by (cbn; now rewrite lookup_insert_ne).
      reflexivity.
    + unfold bind. rewrite (registerTargetMaker_fresh b g Hb).
      rewrite registerTargetMaker_fresh by (cbn; now rewrite lookup_insert_ne).
      cbn. unfold set_targetMakers. cbn. now rewrite insert_insert_ne.
  - intros a b Ha Hb. eexists. split.
    + unfold bind. rewrite (registerMatchMaker_fresh a g Ha).
      rewrite registerTargetMaker_fresh by exact Hb. reflexivity.
    + unfold bind. rewrite (registerTargetMaker_fresh b g Hb).
      rewrite registerMatchMaker_fresh by exact Ha. reflexivity.
Qed.

End registration.

(** The matcher ["udp"] registered, used and registered again. *)
Lemma registered_matcher_is_used_witness :
  @marshalMatcher stack_plain "udp"
    (final_state (registerMatchMaker udp no_extensions))
  = Ret [] (final_state (registerMatchMaker udp no_extensions))
  /\ exists v,
       registerMatchMaker udp (final_state (registerMatchMaker udp no_extensions))
       = Panic v (final_state (registerMatchMaker udp no_extensions)).
Proof.
  destruct (@registered_matcher_is_used stack_plain linux_xt no_extensions
              (final_state (registerMatchMaker udp no_extensions)) udp)
    as (Hm & _ & Hdup & _).
  - reflexivity.
  - split; [apply (Hm "udp"%string); reflexivity | apply Hdup; reflexivity].
Defined.

(** Revision 2 of the target registered on top of revisions 0 and 1. *)
Lemma registered_target_is_used_witness :
  @marshalTarget stack_plain (mkTargetID "REDIRECT" 2048 2)
    (final_state (registerTargetMaker (redirect 2) two_redirects))
  = Ret [] (final_state (registerTargetMaker (redirect 2) two_redirects))
  /\ targetMakers (final_state (registerTargetMaker (redirect 2) two_redirects))
       !! mkTargetID "REDIRECT" 2048 0
     = targetMakers two_redirects !! mkTargetID "REDIRECT" 2048 0.
Proof.
  destruct (@registered_target_is_used stack_plain linux_xt two_redirects
              (final_state (registerTargetMaker (redirect 2) two_redirects)) (redirect 2))
    as (Hm & _ & _ & Hframe & _).
  - reflexivity.
  - split; [apply Hm; reflexivity | apply Hframe; discriminate].
Defined.

(** ["udp"] and ["tcp"] in both orders. *)
Lemma registration_order_is_irrelevant_witness :
  exists g',
    bind (registerMatchMaker udp) (fun _ => registerMatchMaker tcp) no_extensions = Ret tt g'
    /\ bind (registerMatchMaker tcp) (fun _ => registerMatchMaker udp) no_extensions = Ret tt g'.
Proof.
  destruct (@registration_order_is_irrelevant stack_plain no_extensions) as (Hm & _).
  apply Hm; [discriminate | reflexivity | reflexivity].
Defined.

(** ** Registries built by initialisation *)

Section initialised.
Context `{!pkg_stack}.

(** What a run of registrations that returns has done. *)
Lemma registerTargetMakers_returns (tms : list targetMaker) : forall g g',
  registerTargetMakers tms g = Ret tt g' ->
  NoDup (map targetMaker_id tms)
  /\ (forall tm, In tm tms -> targetMakers g !! targetMaker_id tm = None)
  /\ (forall k, targetMakers g' !! k =
        match find (fun tm => bool_decide (targetMaker_id tm = k)) tms with
        | Some tm => Some tm
        | None => targetMakers g !! k
        end)
  /\ matchMakers g' = matchMakers g.
Proof.
  induction tms as [|tm tms IH]; intros g g' Hrun.
  - injection Hrun as <-. repeat split; [apply NoDup_nil_2 | intros tm []].
  - cbn [registerTargetMakers] in Hrun. unfold bind in Hrun.
    destruct (targetMakers g !! targetMaker_id tm) as [old|] eqn:Hlook.
    { now rewrite (registerTargetMaker_taken _ _ _ Hlook) in Hrun. }
    rewrite (registerTargetMaker_fresh _ _ Hlook) in Hrun.
    destruct (IH _ _ Hrun) as (Hnd & Hfresh & Hget & Hmm). cbn in Hfresh, Hget, Hmm.
    assert (Hnotin : ~ In (targetMaker_id tm) (map targetMaker_id tms)).
    { intros Hin. apply in_map_iff in Hin as (tm' & Hid & Hin).
      specialize (Hfresh tm' Hin). rewrite Hid, lookup_insert_eq in Hfresh. discriminate. }
    repeat match goal with |- _ /\ _ => split end.
    + cbn [map]. apply NoDup_cons. split; [now rewrite list_elem_of_In | exact Hnd].
    + intros tm' [<-|Hin]; [exact Hlook|].
      specialize (Hfresh tm' Hin).
      destruct (decide (targetMaker_id tm = targetMaker_id tm')) as [Heq|Hne].
      * rewrite Heq, lookup_insert_eq in Hfresh. discriminate.
      * now rewrite lookup_insert_ne in Hfresh.
    + intros k. rewrite Hget. cbn [find].
      destruct (bool_decide_reflect (targetMaker_id tm = k)) as [<-|Hne].
      * destruct (find _ tms) as [tm'|] eqn:Hfind; [|apply lookup_insert_eq].
        apply find_some in Hfind as [Hin Hid]. apply bool_decide_eq_true in Hid.
        exfalso. apply Hnotin. apply in_map_iff. eauto.
      * destruct (find _ tms); [reflexivity | now apply lookup_insert_ne].
    + exact Hmm.
Qed.

(** X4.  Registering a list of targets from the empty registries returns
    exactly when no two of them have the same id; it then files every
    target under its own id, and nothing else. *)
Theorem registerTargetMakers_from_empty (tms : list targetMaker) :
  (returns (registerTargetMakers tms no_makers) = true
   <-> NoDup (map targetMaker_id tms))
  /\ (forall g,
        registerTargetMakers tms no_makers = Ret tt g ->
        registry_keyed (targetMakers g)
        /\ (forall k tm, targetMakers g !! k = Some tm
                         <-> In tm tms /\ targetMaker_id tm = k)
        /\ matchMakers g = ∅).
Proof.
  assert (Hgen : forall l g,
            NoDup (map targetMaker_id l) ->
            (forall tm, In tm l -> targetMakers g !! targetMaker_id tm = None) ->
            returns (registerTargetMakers l g) = true).
  { induction l as [|tm l IH]; intros g Hnd Hfresh; [reflexivity|].
    cbn [registerTargetMakers]. unfold bind.
    rewrite registerTargetMaker_fresh by (apply Hfresh; now left).
    cbn [map] in Hnd. apply NoDup_cons in Hnd as [Hnotin Hnd].
    rewrite list_elem_of_In in Hnotin.
    apply IH; [exact Hnd|]. intros tm' Hin. cbn.
    rewrite lookup_insert_ne; [apply Hfresh; now right|].
    intros Heq. apply Hnotin. apply in_map_iff. eauto. }
  split.
  - split.
    + intros Hret.
      destruct (registerTargetMakers tms no_makers) as [[] g|v g|g] eqn:Hrun;
        try discriminate.
      now destruct (registerTargetMakers_returns _ _ _ Hrun).
    + intros Hnd. apply Hgen; [exact Hnd|]. intros tm _. apply lookup_empty.
  - intros g Hrun.
    destruct (registerTargetMakers_returns _ _ _ Hrun) as (Hnd & _ & Hget & Hmm).
    assert (Hiff : forall k tm, targetMakers g !! k = Some tm
                                <-> In tm tms /\ targetMaker_id tm = k).
    { intros k tm. rewrite Hget. cbn [targetMakers no_makers]. rewrite lookup_empty.
      split.
      - destruct (find _ tms) as [tm'|] eqn:Hfind; [|discriminate].
        intros [= <-]. apply find_some in Hfind as [Hin Hid].
        now apply bool_decide_eq_true in Hid.
      - intros [Hin <-].
        destruct (find _ tms) as [tm'|] eqn:Hfind.
        + apply find_some in Hfind as [Hin' Hid]. apply bool_decide_eq_true in Hid.
          f_equal. clear Hget Hrun.
          induction tms as [|x tms IH]; [destruct Hin|].
          cbn [map] in Hnd. apply NoDup_cons in Hnd as [Hnotin Hnd].
          rewrite list_elem_of_In in Hnotin.
          destruct Hin as [->|Hin], Hin' as [->|Hin']; auto.
          * exfalso. apply Hnotin. apply in_map_iff. eauto.
          * exfalso. apply Hnotin. apply in_map_iff. eauto.
        + exfalso. eapply find_none in Hfind; [|exact Hin].
          now rewrite bool_decide_eq_true_2 in Hfind. }
    split; [|split].
    + intros k tm Hk. now apply Hiff in Hk.
    + exact Hiff.
    + exact Hmm.
Qed.

End initialised.

(** Revisions 0 and 1 registered in a row give the sample registry. *)
Lemma registerTargetMakers_from_empty_witness :
  registry_keyed
    (targetMakers (final_state (@registerTargetMakers stack_plain
                                  [redirect 0; redirect 1] no_makers)))
  /\ matchMakers (final_state (@registerTargetMakers stack_plain
                                 [redirect 0; redirect 1] no_makers)) = ∅.
Proof.
  destruct (@registerTargetMakers_from_empty stack_plain [redirect 0; redirect 1])
    as [_ Hreg].
  destruct (Hreg (final_state (@registerTargetMakers stack_plain
                                 [redirect 0; redirect 1] no_makers)))
    as (Hkeyed & _ & Hmm).
  - reflexivity.
  - split; assumption.
Defined.

(** ** The answer of [targetRevision] *)

Section revisions.
Context `{!pkg_stack}.

Lemma targetRevision_visit_comm name netProto rev (a b : targetMaker) :
  0 <= Revision (targetMaker_id a) < 256 ->
  0 <= Revision (targetMaker_id b) < 256 ->
  targetRevision_visit name netProto (targetRevision_visit name netProto rev a) b
  = targetRevision_visit name netProto (targetRevision_visit name netProto rev b) a.
Proof.
  intros Ha Hb. rewrite !targetRevision_visit_spec by assumption.
  repeat destruct (decide _); lia.
Qed.

Lemma targetRevision_loop_permutation name netProto (l1 l2 : list targetMaker) :
  Permutation l1 l2 ->
  forall rev,
    (forall tm, In tm l1 -> 0 <= Revision (targetMaker_id tm) < 256) ->
    foldl (targetRevision_visit name netProto) rev l1
    = foldl (targetRevision_visit name netProto) rev l2.
Proof.
  induction 1 as [|x l1 l2 Hperm IH|x y l|l1 l2 l3 H12 IH12 H23 IH23];
    intros rev Hrange; cbn [foldl].
  - reflexivity.
  - apply IH. intros tm Htm. apply Hrange. now right.
  - f_equal. apply targetRevision_visit_comm; apply Hrange; cbn; auto.
  - rewrite IH12 by exact Hrange. apply IH23.
    intros tm Htm. apply Hrange. eapply Permutation_in; [symmetry; exact H12 | exact Htm].
Qed.

(** X5.  The answer of [targetRevision] does not depend on the order in
    which the [range] loop visits the registered targets. *)
Theorem targetRevision_any_order (g : Globals) (visited visited' : list targetMaker)
    (name : string) (netProto rev : Z) :
  Permutation visited visited' ->
  (forall tm, In tm visited -> 0 <= Revision (targetMaker_id tm) < 256) ->
  targetRevision visited name netProto rev g
  = targetRevision visited' name netProto rev g.
Proof.
  intros Hperm Hrange. unfold targetRevision, bind, gets.
  destruct (targetMakers g !! _); [|reflexivity].
  now rewrite (targetRevision_loop_permutation name netProto _ _ Hperm).
Qed.

(** X6.  A revision that [targetRevision] answers is registered for the
    name and the protocol, it is not below the revision asked for, and
    asking for it gives it back. *)
Theorem targetRevision_answer_is_registered (g : Globals) (visited : list targetMaker)
    (name : string) (netProto rev r : Z) :
  registry_keyed (targetMakers g) ->
  (forall k tm, targetMakers g !! k = Some tm -> 0 <= Revision k < 256) ->
  Permutation visited (map snd (map_to_list (targetMakers g))) ->
  targetRevision visited name netProto rev g = Ret (r, true) g ->
  rev <= r
  /\ is_Some (targetMakers g !! mkTargetID name netProto r)
  /\ targetRevision visited name netProto r g = Ret (r, true) g.
Proof.
  intros Hkeyed Hrange Hperm Hrun.
  assert (Hin : forall tm, In tm visited ->
            targetMakers g !! targetMaker_id tm = Some tm).
  { intros tm Htm.
    apply (Permutation_in _ Hperm) in Htm.
    apply in_map_iff in Htm as ([k tm'] & Heq & Hk). simpl in Heq. subst tm'.
    apply list_elem_of_In, elem_of_map_to_list in Hk.
    now rewrite (Hkeyed _ _ Hk). }
  assert (Hvis : forall tm, In tm visited -> 0 <= Revision (targetMaker_id tm) < 256).
  { intros tm Htm. eapply Hrange, Hin, Htm. }
  unfold targetRevision, bind, gets in Hrun.
  destruct (targetMakers g !! mkTargetID name netProto rev) as [tm0|] eqn:Hreg;
    [|discriminate].
  injection Hrun as Hr.
  destruct (targetRevision_loop_highest name netProto visited rev Hvis)
    as (Hle & Hub & Hmax).
  rewrite Hr in Hle, Hub, Hmax.
  assert (Hregr : is_Some (targetMakers g !! mkTargetID name netProto r)).
  { destruct Hmax as [->|(t & (tm & Htm & <-) & [Hn Hp] & Hrev)]; [eauto|].
    exists tm. rewrite <- (Hin tm Htm). f_equal.
    destruct (targetMaker_id tm); cbn in *. congruence. }
  split; [exact Hle|]. split; [exact Hregr|].
  unfold targetRevision, bind, gets. destruct Hregr as [tmr ->]. do 2 f_equal.
  destruct (targetRevision_loop_highest name netProto visited r Hvis)
    as (Hle' & _ & Hmax').
  destruct Hmax' as [->|(t & Ht & Hsame & Hrev)]; [reflexivity|].
  specialize (Hub t Ht Hsame). lia.
Qed.

End revisions.

(** Asking for revision 0 answers revision 1, which is registered. *)
Lemma targetRevision_answer_is_registered_witness :
  0 <= 1
  /\ is_Some (targetMakers two_redirects !! mkTargetID "REDIRECT" 2048 1)
  /\ @targetRevision stack_plain [redirect 1; redirect 0] "REDIRECT" 2048 1 two_redirects
     = Ret (1, true) two_redirects.
Proof.
  apply (@targetRevision_answer_is_registered stack_plain two_redirects
           [redirect 1; redirect 0] "REDIRECT" 2048 0 1).
  - intros k tm Hk.
    destruct (two_redirects_lookup k tm Hk) as [[-> ->]|[-> ->]]; reflexivity.
  - intros k tm Hk.
    destruct (two_redirects_lookup k tm Hk) as [[-> ->]|[-> ->]]; simpl; lia.
  - vm_compute. apply Permutation_refl || apply perm_swap.
  - vm_compute. reflexivity.
Defined.

(** The two orders in which the sample registry can be visited. *)
Lemma targetRevision_any_order_witness :
  @targetRevision stack_plain [redirect 1; redirect 0] "REDIRECT" 2048 0 two_redirects
  = @targetRevision stack_plain [redirect 0; redirect 1] "REDIRECT" 2048 0 two_redirects.
Proof.
  apply (@targetRevision_any_order stack_plain).
  - apply perm_swap.
  - intros tm [<-|[<-|[]]]; simpl; lia.
Defined.
End netfilter_facts.

(** * Properties of the kernfs dentry tree *)
Module kernfs_facts.
Import kernfs.

(** ** Reading memory after a write *)

Lemma dentry_write_dentry s d x k :
  dentry (write_dentry d x s) k = if decide (k = d) then x else dentry s k.
Proof.
  unfold dentry, write_dentry; simpl. destruct (decide (k = d)) as [->|Hne].
  - apply lookup_total_insert_eq.
  - apply lookup_total_insert_ne. congruence.
Qed.

Lemma dentry_write_dentry_eq s d x : dentry (write_dentry d x s) d = x.
Proof. rewrite dentry_write_dentry. now destruct (decide (d = d)). Qed.

Lemma dentry_write_dentry_ne s d x k :
  k <> d -> dentry (write_dentry d x s) k = dentry s k.
Proof. intros Hne. rewrite dentry_write_dentry. now destruct (decide (k = d)). Qed.

Lemma filesystem_write_filesystem s f x k :
  filesystem (write_filesystem f x s) k = if decide (k = f) then x else filesystem s k.
Proof.
  unfold filesystem, write_filesystem; simpl. destruct (decide (k = f)) as [->|Hne].
  - apply lookup_total_insert_eq.
  - apply lookup_total_insert_ne. congruence.
Qed.

Lemma filesystem_write_filesystem_eq s f x : filesystem (write_filesystem f x s) f = x.
Proof. rewrite filesystem_write_filesystem. now destruct (decide (f = f)). Qed.

Lemma filesystem_write_filesystem_ne s f x k :
  k <> f -> filesystem (write_filesystem f x s) k = filesystem s k.
Proof. intros Hne. rewrite filesystem_write_filesystem. now destruct (decide (k = f)). Qed.

Lemma inode_obj_write_inode s i x k :
  inode_obj (write_inode i x s) k = if decide (k = i) then x else inode_obj s k.
Proof.
  unfold inode_obj, write_inode; simpl. destruct (decide (k = i)) as [->|Hne].
  - apply lookup_total_insert_eq.
  - apply lookup_total_insert_ne. congruence.
Qed.

Lemma inode_obj_write_inode_eq s i x : inode_obj (write_inode i x s) i = x.
Proof. rewrite inode_obj_write_inode. now destruct (decide (i = i)). Qed.

Lemma inode_obj_write_inode_ne s i x k :
  k <> i -> inode_obj (write_inode i x s) k = inode_obj s k.
Proof. intros Hne. rewrite inode_obj_write_inode. now destruct (decide (k = i)). Qed.

Lemma dentry_write_filesystem s f x d : dentry (write_filesystem f x s) d = dentry s d.
Proof. reflexivity. Qed.
Lemma dentry_write_inode s i x d : dentry (write_inode i x s) d = dentry s d.
Proof. reflexivity. Qed.
Lemma dentry_record s e d : dentry (record e s) d = dentry s d.
Proof. reflexivity. Qed.
Lemma filesystem_write_dentry s d x f : filesystem (write_dentry d x s) f = filesystem s f.
Proof. reflexivity. Qed.
Lemma filesystem_write_inode s i x f : filesystem (write_inode i x s) f = filesystem s f.
Proof. reflexivity. Qed.
Lemma filesystem_record s e f : filesystem (record e s) f = filesystem s f.
Proof. reflexivity. Qed.
Lemma inode_obj_write_dentry s d x i : inode_obj (write_dentry d x s) i = inode_obj s i.
Proof. reflexivity. Qed.
Lemma inode_obj_write_filesystem s f x i : inode_obj (write_filesystem f x s) i = inode_obj s i.
Proof. reflexivity. Qed.
Lemma inode_obj_record s e i : inode_obj (record e s) i = inode_obj s i.
Proof. reflexivity. Qed.
Lemma trace_write_dentry s d x : trace (write_dentry d x s) = trace s.
Proof. reflexivity. Qed.
Lemma trace_write_filesystem s f x : trace (write_filesystem f x s) = trace s.
Proof. reflexivity. Qed.
Lemma trace_write_inode s i x : trace (write_inode i x s) = trace s.
Proof. reflexivity. Qed.
Lemma trace_record s e : trace (record e s) = trace s ++ [e].
Proof. reflexivity. Qed.

#[local] Arguments dentry : simpl never.
#[local] Arguments filesystem : simpl never.
#[local] Arguments inode_obj : simpl never.
#[local] Arguments write_dentry : simpl never.
#[local] Arguments write_filesystem : simpl never.
#[local] Arguments write_inode : simpl never.
#[local] Arguments record : simpl never.

(** Reads of a state built from writes, resolved where the addresses are
    known to be equal or different. *)
Ltac reads :=
  repeat first
    [ rewrite dentry_record | rewrite dentry_write_filesystem | rewrite dentry_write_inode
    | rewrite dentry_write_dentry_eq
    | rewrite dentry_write_dentry_ne by congruence
    | rewrite filesystem_record | rewrite filesystem_write_dentry
    | rewrite filesystem_write_inode
    | rewrite filesystem_write_filesystem_eq
    | rewrite filesystem_write_filesystem_ne by congruence
    | rewrite inode_obj_record | rewrite inode_obj_write_dentry
    | rewrite inode_obj_write_filesystem
    | rewrite inode_obj_write_inode_eq
    | rewrite inode_obj_write_inode_ne by congruence
    | rewrite trace_record | rewrite trace_write_dentry
    | rewrite trace_write_filesystem | rewrite trace_write_inode ].

Ltac fields :=
  unfold children_map in *;
  cbn [vfsd DentryRefs fs flags parent name dirMu children inode
       set_vfsd set_DentryRefs set_fs set_flags set_parent set_name set_dirMu
       set_children set_inode delete_child children_map
       droppedDentriesMu droppedDentries mu nextInoMinusOne
       set_droppedDentriesMu set_droppedDentries set_mu set_nextInoMinusOne
       Inode_Mode Inode_refs set_Inode_refs default from_option id] in *.

(** ** Running a computation one call at a time *)

Lemma bind_Ret {S A B} (m : M S A) (k : A -> M S B) s a s1 o :
  m s = Ret a s1 -> k a s1 = o -> bind m k s = o.
Proof. intros Hm Hk. unfold bind. now rewrite Hm. Qed.

Lemma bind_Panic {S A B} (m : M S A) (k : A -> M S B) s v s1 :
  m s = Panic v s1 -> bind m k s = Panic v s1.
Proof. intros Hm. unfold bind. now rewrite Hm. Qed.

Lemma bind_Blocked {S A B} (m : M S A) (k : A -> M S B) s s1 :
  m s = Blocked s1 -> bind m k s = Blocked s1.
Proof. intros Hm. unfold bind. now rewrite Hm. Qed.

Lemma Lock_free l s :
  held l s = false ->
  Lock l s = Ret tt (record (EvLock l) (final_state (set_held l true s))).
Proof. intros Hfree. unfold Lock. rewrite Hfree. now destruct l. Qed.

Lemma Lock_held l s : held l s = true -> Lock l s = Blocked s.
Proof. intros Hheld. unfold Lock. now rewrite Hheld. Qed.

Lemma Unlock_eq l s :
  Unlock l s = Ret tt (record (EvUnlock l) (final_state (set_held l false s))).
Proof. now destruct l. Qed.

(** One step of a computation whose first call is a primitive. *)
Ltac step :=
  eapply bind_Ret;
  [ first [ reflexivity | rewrite Lock_free by (cbn [held]; reads; fields; assumption || reflexivity); reflexivity | apply Unlock_eq ]
  | cbv beta; cbn [set_held final_state update_dentry update_filesystem update_inode modify]; reads; fields ].

Lemma isDir_eq d s :
  isDir d s = Ret (negb (Z.land (flags (dentry s d)) dflagsIsDir =? 0)) s.
Proof. reflexivity. Qed.


(** Two records built by field updates, compared field by field. *)
Ltac records :=
  unfold set_vfsd, set_DentryRefs, set_fs, set_flags, set_parent, set_name,
    set_dirMu, set_children, set_inode, children_map, delete_child,
    set_droppedDentriesMu, set_droppedDentries, set_mu, set_nextInoMinusOne,
    set_Inode_refs;
  cbn [vfsd DentryRefs fs flags parent name dirMu children inode
       droppedDentriesMu droppedDentries mu nextInoMinusOne
       Inode_Mode Inode_refs default from_option id].

(** The effect of [insertChildLocked] on a directory, dentry by dentry. *)
Lemma insertChildLocked_dir s d nm child :
  Z.land (flags (dentry s d)) dflagsIsDir <> 0 ->
  exists s',
    insertChildLocked d nm child s = Ret tt s'
    /\ (forall k, dentry s' k =
          (if decide (k = d)
           then fun x => set_children (Some (<[nm := child]> (children_map x)))
                           (set_DentryRefs (DentryRefs x + 1) x)
           else fun x => x)
            ((if decide (k = child)
              then fun x => set_name nm (set_parent (Some d) x)
              else fun x => x) (dentry s k)))
    /\ filesystems s' = filesystems s
    /\ inodes s' = inodes s
    /\ trace s' = trace s ++ [EvIncRef d].
Proof.
  intros Hdir. unfold insertChildLocked.
  assert (Hb : negb (Z.land (flags (dentry s d)) dflagsIsDir =? 0) = true).
  { apply negb_true_iff, Z.eqb_neq, Hdir. }
  destruct (children (dentry s d)) as [m|] eqn:Hch;
    (destruct (decide (child = d)) as [->|Hne];
     [ eexists; split;
       [ eapply bind_Ret; [apply isDir_eq|]; rewrite Hb; cbn [negb];
         do 4 step; rewrite Hch; repeat step; reflexivity
       | repeat split; try reflexivity;
         intros k; destruct (decide (k = d)) as [->|Hk];
         reads; records; rewrite ?Hch; reflexivity ]
     | eexists; split;
       [ eapply bind_Ret; [apply isDir_eq|]; rewrite Hb; cbn [negb];
         do 4 step; rewrite Hch; repeat step; reflexivity
       | repeat split; try reflexivity;
         intros k; destruct (decide (k = d)) as [->|Hk];
         [ destruct (decide (d = child)); [congruence|]
         | destruct (decide (k = child)) as [->|Hk'] ];
         reads; records; rewrite ?Hch; reflexivity ] ]).
Qed.

(** Tests of addresses that are known to be equal or different. *)
Ltac decides :=
  repeat match goal with
         | |- context [decide (?x = ?y)] =>
             first [ rewrite (decide_True (P := x = y)) by congruence
                   | rewrite (decide_False (P := x = y)) by congruence ]
         end.

Lemma insertChildLocked_not_dir s d nm child :
  Z.land (flags (dentry s d)) dflagsIsDir = 0 ->
  insertChildLocked d nm child s
  = Panic (Sprintf "insertChildLocked called on non-directory Dentry: %+v.") s.
Proof.
  intros Hdir. unfold insertChildLocked.
  eapply bind_Ret; [apply isDir_eq|]. rewrite Hdir. reflexivity.
Qed.

(** The effect of [insertChild] on a directory whose [dirMu] the caller
    does not hold. *)
Lemma insertChild_dir s d nm child :
  dirMu (dentry s d) = false ->
  Z.land (flags (dentry s d)) dflagsIsDir <> 0 ->
  exists s',
    insertChild d nm child s = Ret tt s'
    /\ (forall k, dentry s' k =
          (if decide (k = d)
           then fun x => set_children (Some (<[nm := child]> (children_map x)))
                           (set_DentryRefs (DentryRefs x + 1) x)
           else fun x => x)
            ((if decide (k = child)
              then fun x => set_name nm (set_parent (Some d) x)
              else fun x => x) (dentry s k)))
    /\ filesystems s' = filesystems s
    /\ inodes s' = inodes s
    /\ trace s' = trace s ++ [EvLock (Dentry_dirMu d); EvIncRef d; EvUnlock (Dentry_dirMu d)].
Proof.
  intros Hfree Hdir. unfold insertChild.
  set (s1 := record (EvLock (Dentry_dirMu d))
               (write_dentry d (set_dirMu true (dentry s d)) s)).
  destruct (insertChildLocked_dir s1 d nm child) as (s2 & Hrun & Hview & Hfs & Hino & Htr).
  { unfold s1. reads. fields. exact Hdir. }
  eexists. split.
  { step. fold s1. eapply bind_Ret; [exact Hrun|]. step. reflexivity. }
  repeat split.
  - intros k. reads. rewrite dentry_write_dentry, !Hview. unfold s1.
    destruct (decide (k = d)) as [->|Hk]; reads; [|reflexivity].
    destruct (decide (d = child)) as [<-|Hne]; decides; reads; records;
      rewrite Hfree; reflexivity.
  - transitivity (filesystems s2); [reflexivity | now rewrite Hfs].
  - transitivity (inodes s2); [reflexivity | now rewrite Hino].
  - reads. rewrite Htr. unfold s1. reads. now rewrite <- !app_assoc.
Qed.

Lemma insertChild_held s d nm child :
  dirMu (dentry s d) = true -> insertChild d nm child s = Blocked s.
Proof. intros Hheld. unfold insertChild. apply bind_Blocked, Lock_held, Hheld. Qed.

Lemma insertChild_not_dir s d nm child :
  dirMu (dentry s d) = false ->
  Z.land (flags (dentry s d)) dflagsIsDir = 0 ->
  panics (insertChild d nm child s) = true.
Proof.
  intros Hfree Hdir. unfold insertChild.
  erewrite bind_Ret; [| apply Lock_free, Hfree | reflexivity].
  erewrite bind_Panic; [reflexivity|].
  apply insertChildLocked_not_dir. cbn [set_held final_state update_dentry modify].
  reads. fields. exact Hdir.
Qed.

(** ** Flags, filesystem pointers and the inode counter are left alone *)

Lemma stable_refl s : stable s s.
Proof. repeat split; reflexivity. Qed.

Lemma stable_trans s1 s2 s3 : stable s1 s2 -> stable s2 s3 -> stable s1 s3.
Proof.
  intros (Hf1 & Hs1 & Hn1 & Ht1) (Hf2 & Hs2 & Hn2 & Ht2). repeat split.
  - intros d. now rewrite Hf2.
  - intros d. now rewrite Hs2.
  - intros f. now rewrite Hn2.
  - now transitivity (trace s2).
Qed.

Create HintDb keeps.

Lemma keeps_ret {A} (a : A) : keeps (ret a).
Proof. intros s. apply stable_refl. Qed.

Lemma keeps_panic {A} v : keeps (@panic State A v).
Proof. intros s. apply stable_refl. Qed.

Lemma keeps_gets {A} (f : State -> A) : keeps (gets f).
Proof. intros s. apply stable_refl. Qed.

Lemma keeps_bind {A B} (m : M State A) (k : A -> M State B) :
  keeps m -> (forall a, keeps (k a)) -> keeps (bind m k).
Proof.
  intros Hm Hk s. unfold bind. specialize (Hm s).
  destruct (m s) as [a s'|v s'|s']; simpl in *; [|exact Hm..].
  eapply stable_trans; [exact Hm | apply Hk].
Qed.

Lemma keeps_update_dentry d (f : Dentry -> Dentry) :
  (forall x, flags (f x) = flags x) -> (forall x, fs (f x) = fs x) ->
  keeps (update_dentry d f).
Proof.
  intros Hflags Hfs s. cbn [update_dentry modify final_state].
  repeat split; try reflexivity.
  - intros k. rewrite dentry_write_dentry. destruct (decide (k = d)) as [->|]; auto.
  - intros k. rewrite dentry_write_dentry. destruct (decide (k = d)) as [->|]; auto.
Qed.

Lemma keeps_update_filesystem fs_ (f : Filesystem -> Filesystem) :
  (forall x, nextInoMinusOne (f x) = nextInoMinusOne x) ->
  keeps (update_filesystem fs_ f).
Proof.
  intros Hino s. cbn [update_filesystem modify final_state].
  repeat split; try reflexivity.
  intros k. rewrite filesystem_write_filesystem. destruct (decide (k = fs_)) as [->|]; auto.
Qed.

Lemma keeps_update_inode i (f : Inode -> Inode) : keeps (update_inode i f).
Proof. intros s. repeat split; reflexivity. Qed.

Lemma keeps_emit e : keeps (emit e).
Proof.
  intros s. cbn [emit modify final_state]. repeat split; try reflexivity.
  rewrite trace_record. now apply prefix_app_r.
Qed.

Lemma keeps_deref {A} (p : option A) : keeps (deref p).
Proof. destruct p; [apply keeps_ret | apply keeps_panic]. Qed.

Lemma keeps_set_held l b : keeps (set_held l b).
Proof.
  destruct l; cbn [set_held];
    first [ apply keeps_update_filesystem | apply keeps_update_dentry ]; reflexivity.
Qed.

Lemma keeps_Lock l : keeps (Lock l).
Proof.
  intros s. unfold Lock. destruct (held l s); [apply stable_refl|].
  apply (keeps_bind _ _ (keeps_set_held l true) (fun _ => keeps_emit _)).
Qed.

Lemma keeps_Unlock l : keeps (Unlock l).
Proof. apply keeps_bind; [apply keeps_set_held | intros; apply keeps_emit]. Qed.

Lemma keeps_load_dentry d : keeps (load_dentry d).
Proof. apply keeps_gets. Qed.

Lemma keeps_load_filesystem f : keeps (load_filesystem f).
Proof. apply keeps_gets. Qed.

Lemma keeps_InvalidateDentry d : keeps (InvalidateDentry d).
Proof. apply keeps_emit. Qed.

#[local] Hint Resolve keeps_ret keeps_panic keeps_gets keeps_update_inode
  keeps_emit keeps_deref keeps_Lock keeps_Unlock keeps_load_dentry
  keeps_load_filesystem keeps_InvalidateDentry : keeps.

(** A computation built from calls that keep, with its case analyses. *)
Ltac keeps_go :=
  repeat first
    [ apply keeps_bind; [|intros]
    | progress auto with keeps
    | apply keeps_update_dentry; reflexivity
    | apply keeps_update_filesystem; reflexivity
    | match goal with
      | |- keeps (match ?x with _ => _ end) => destruct x
      | |- keeps (if ?b then _ else _) => destruct b
      end ].

Lemma keeps_DentryRefs_IncRef d : keeps (DentryRefs_IncRef d).
Proof. unfold DentryRefs_IncRef. keeps_go. Qed.

Lemma keeps_Inode_DecRef i : keeps (Inode_DecRef i).
Proof. unfold Inode_DecRef. keeps_go. Qed.

Lemma keeps_delete_child d k : keeps (update_dentry d (delete_child k)).
Proof.
  apply keeps_update_dentry; intros x; unfold delete_child;
    destruct (children x); reflexivity.
Qed.

#[local] Hint Resolve keeps_DentryRefs_IncRef keeps_Inode_DecRef keeps_delete_child : keeps.

Lemma keeps_DecRef_destroy d b : keeps (DecRef_destroy d b).
Proof. unfold DecRef_destroy. keeps_go. Qed.

Lemma keeps_DecRef_locked d : keeps (DecRef_locked d).
Proof.
  unfold DecRef_locked, DentryRefs_DecRef. keeps_go.
Qed.

Lemma keeps_insertChildLocked d nm child : keeps (insertChildLocked d nm child).
Proof. unfold insertChildLocked, isDir. keeps_go. Qed.

Lemma keeps_insertChild d nm child : keeps (insertChild d nm child).
Proof. unfold insertChild. keeps_go. Qed.

Lemma keeps_deferDecRef f d : keeps (deferDecRef f d).
Proof. unfold deferDecRef. keeps_go. Qed.

Lemma DecRef_fuel_stable n : forall d s o,
  DecRef_fuel n d s = Some o -> stable s (final_state o).
Proof.
  induction n as [|n IH]; intros d s o Hrun; [discriminate|].
  cbn [DecRef_fuel] in Hrun.
  pose proof (keeps_DecRef_locked d s) as Hstep.
  destruct (DecRef_locked d s) as [[] s'|v s'|s']; cbn [final_state] in Hstep.
  - destruct (parent (dentry s' d)) as [p|].
    + eapply stable_trans; [exact Hstep | eapply IH, Hrun].
    + now injection Hrun as <-.
  - now injection Hrun as <-.
  - now injection Hrun as <-.
  - now injection Hrun as <-.
Qed.

(** ** The reference counter *)

Lemma DentryRefs_DecRef_keep {L} d (destroy : L -> M State L) (locals : L) s :
  DentryRefs (dentry s d) <> 1 ->
  DentryRefs_DecRef d destroy locals s
  = Ret locals (record (EvDecRef d)
                  (write_dentry d (set_DentryRefs (DentryRefs (dentry s d) - 1) (dentry s d)) s)).
Proof.
  intros Hrefs. unfold DentryRefs_DecRef. do 3 step.
  destruct (Z.eqb_spec (DentryRefs (dentry s d) - 1) 0); [lia | reflexivity].
Qed.

Lemma DentryRefs_DecRef_zero {L} d (destroy : L -> M State L) (locals : L) s :
  DentryRefs (dentry s d) = 1 ->
  DentryRefs_DecRef d destroy locals s
  = destroy locals (record (EvDecRef d)
                      (write_dentry d (set_DentryRefs 0 (dentry s d)) s)).
Proof.
  intros Hrefs. unfold DentryRefs_DecRef. do 3 step. rewrite Hrefs. reflexivity.
Qed.

(** ** The destructor of a dentry *)

Lemma DecRef_destroy_nil_inode d b s :
  inode (dentry s d) = None ->
  DecRef_destroy d b s = Panic NilPointerDereference s.
Proof.
  intros Hino. unfold DecRef_destroy. step. rewrite Hino. reflexivity.
Qed.

Lemma DecRef_destroy_root d b s i :
  inode (dentry s d) = Some i ->
  parent (dentry s d) = None ->
  exists s',
    DecRef_destroy d b s = Ret b s'
    /\ (forall k, dentry s' k =
          if decide (k = d) then set_inode None (dentry s k) else dentry s k)
    /\ (forall k, inode_obj s' k =
          if decide (k = i)
          then set_Inode_refs (Inode_refs (inode_obj s k) - 1) (inode_obj s k)
          else inode_obj s k)
    /\ filesystems s' = filesystems s
    /\ trace s' = trace s ++ [EvInodeDecRef i].
Proof.
  intros Hino Hpar. eexists. split.
  { unfold DecRef_destroy, Inode_DecRef. step. rewrite Hino. do 4 step.
    rewrite Hpar. reflexivity. }
  repeat split; try reflexivity.
  - intros k. destruct (decide (k = d)) as [->|Hk]; reads; reflexivity.
  - intros k. destruct (decide (k = i)) as [->|Hk]; reads; reflexivity.
Qed.

Lemma DecRef_destroy_child_held d b s i p :
  inode (dentry s d) = Some i ->
  parent (dentry s d) = Some p ->
  dirMu (dentry s p) = true ->
  exists s', DecRef_destroy d b s = Blocked s'.
Proof.
  intros Hino Hpar Hheld. eexists.
  unfold DecRef_destroy, Inode_DecRef. step. rewrite Hino. do 4 step. rewrite Hpar.
  apply bind_Blocked, Lock_held. cbn [held].
  destruct (decide (p = d)) as [->|Hne]; reads; fields; exact Hheld.
Qed.

Lemma DecRef_destroy_child d b s i p :
  inode (dentry s d) = Some i ->
  parent (dentry s d) = Some p ->
  dirMu (dentry s p) = false ->
  exists s',
    DecRef_destroy d b s = Ret true s'
    /\ (forall k, dentry s' k =
          (if decide (k = p)
           then fun x =>
                  match children_map (dentry s p) !! name (dentry s d) with
                  | Some _ => delete_child (name (dentry s d)) x
                  | None => x
                  end
           else fun x => x)
            ((if decide (k = d) then set_inode None else fun x => x) (dentry s k)))
    /\ (forall k, inode_obj s' k =
          if decide (k = i)
          then set_Inode_refs (Inode_refs (inode_obj s k) - 1) (inode_obj s k)
          else inode_obj s k)
    /\ filesystems s' = filesystems s
    /\ trace s' = trace s
         ++ [EvInodeDecRef i; EvLock (Dentry_dirMu p)]
         ++ match children_map (dentry s p) !! name (dentry s d) with
            | Some _ => [EvInvalidateDentry d]
            | None => []
            end
         ++ [EvUnlock (Dentry_dirMu p)].
Proof.
  intros Hino Hpar Hfree. unfold children_map.
  destruct (children (dentry s p)) as [m|] eqn:Hch; cbn [default from_option id];
    [destruct (m !! name (dentry s d)) as [c|] eqn:Hlook | rewrite lookup_empty].
  all: destruct (decide (p = d)) as [->|Hne].
  all: eexists; split;
    [ unfold DecRef_destroy, Inode_DecRef, InvalidateDentry, emit;
      step; rewrite Hino; do 4 step; rewrite Hpar; do 2 step;
      rewrite Hch; cbn [default from_option id]; rewrite ?Hlook, ?lookup_empty;
      repeat step; reflexivity
    | repeat split; try reflexivity;
      [ intros k; destruct (decide (k = d)) as [->|Hk];
        [ decides | try (destruct (decide (k = p)) as [->|Hk']) ];
        reads; records; rewrite ?Hch, ?Hfree; try reflexivity;
        try (rewrite <- Hfree, <- ?Hch; destruct (dentry s p); reflexivity)
      | intros k; destruct (decide (k = i)) as [->|Hk]; reads; reflexivity
      | reads; now rewrite <- ?app_assoc ] ].
Qed.

(** ** [Dentry.DecRef] between [fs.mu.Lock()] and [fs.mu.Unlock()] *)

Lemma DecRef_locked_nil_fs d s :
  fs (dentry s d) = None ->
  DecRef_locked d s = Panic NilPointerDereference s.
Proof. intros Hfs. unfold DecRef_locked. step. rewrite Hfs. reflexivity. Qed.

Lemma DecRef_locked_held d s f :
  fs (dentry s d) = Some f ->
  mu (filesystem s f) = true ->
  DecRef_locked d s = Blocked s.
Proof.
  intros Hfs Hheld. unfold DecRef_locked. step. rewrite Hfs. step.
  apply bind_Blocked, Lock_held, Hheld.
Qed.

Lemma DecRef_locked_zero d s f :
  fs (dentry s d) = Some f ->
  mu (filesystem s f) = false ->
  DentryRefs (dentry s d) = 1 ->
  DecRef_locked d s
  = bind (DecRef_destroy d false)
      (fun decRefParent => bind (Unlock (Filesystem_mu f)) (fun _ => ret decRefParent))
      (at_zero d f s).
Proof.
  intros Hfs Hfree Hrefs. unfold DecRef_locked. step. rewrite Hfs. do 2 step.
  unfold bind at 1. rewrite DentryRefs_DecRef_zero by (reads; exact Hrefs).
  reads. reflexivity.
Qed.

(** A reference that is not the last one: only the count changes. *)
Lemma DecRef_locked_keep d s f :
  fs (dentry s d) = Some f ->
  mu (filesystem s f) = false ->
  DentryRefs (dentry s d) <> 1 ->
  exists s',
    DecRef_locked d s = Ret false s'
    /\ (forall k, dentry s' k =
          if decide (k = d)
          then set_DentryRefs (DentryRefs (dentry s k) - 1) (dentry s k)
          else dentry s k)
    /\ (forall k, filesystem s' k = filesystem s k)
    /\ inodes s' = inodes s
    /\ trace s' = trace s
         ++ [EvLock (Filesystem_mu f); EvDecRef d; EvUnlock (Filesystem_mu f)].
Proof.
  intros Hfs Hfree Hrefs. eexists. split.
  { unfold DecRef_locked. step. rewrite Hfs. do 2 step.
    eapply bind_Ret; [apply DentryRefs_DecRef_keep; reads; exact Hrefs|].
    reads. step. reflexivity. }
  repeat split; try reflexivity.
  - intros k. destruct (decide (k = d)) as [->|Hk]; reads; reflexivity.
  - intros k. destruct (decide (k = f)) as [->|Hk]; reads; [|reflexivity].
    records. rewrite <- Hfree. now destruct (filesystem s f).
  - reads. now rewrite <- !app_assoc.
Qed.

Lemma DecRef_locked_nil_inode d s f :
  fs (dentry s d) = Some f ->
  mu (filesystem s f) = false ->
  DentryRefs (dentry s d) = 1 ->
  inode (dentry s d) = None ->
  DecRef_locked d s = Panic NilPointerDereference (at_zero d f s).
Proof.
  intros Hfs Hfree Hrefs Hino. rewrite (DecRef_locked_zero d s f) by assumption.
  apply bind_Panic, DecRef_destroy_nil_inode. unfold at_zero. reads. fields. exact Hino.
Qed.

(** The last reference of a dentry without a parent. *)
Lemma DecRef_locked_root d s f i :
  fs (dentry s d) = Some f ->
  mu (filesystem s f) = false ->
  DentryRefs (dentry s d) = 1 ->
  inode (dentry s d) = Some i ->
  parent (dentry s d) = None ->
  exists s',
    DecRef_locked d s = Ret false s'
    /\ (forall k, dentry s' k =
          if decide (k = d)
          then set_inode None (set_DentryRefs 0 (dentry s k))
          else dentry s k)
    /\ (forall k, filesystem s' k = filesystem s k)
    /\ (forall k, inode_obj s' k =
          if decide (k = i)
          then set_Inode_refs (Inode_refs (inode_obj s k) - 1) (inode_obj s k)
          else inode_obj s k)
    /\ trace s' = trace s
         ++ [EvLock (Filesystem_mu f); EvDecRef d; EvInodeDecRef i;
             EvUnlock (Filesystem_mu f)].
Proof.
  intros Hfs Hfree Hrefs Hino Hpar.
  destruct (DecRef_destroy_root d false (at_zero d f s) i)
    as (s2 & Hrun & Hd & Hi & Hf & Ht);
    [unfold at_zero; reads; fields; assumption..|].
  eexists. split.
  { rewrite (DecRef_locked_zero d s f) by assumption.
    eapply bind_Ret; [exact Hrun|]. step. reflexivity. }
  assert (Hf2 : forall k, filesystem s2 k = filesystem (at_zero d f s) k).
  { intros k. unfold filesystem. now rewrite Hf. }
  repeat split.
  - intros k. reads. rewrite Hd. unfold at_zero.
    destruct (decide (k = d)) as [->|Hk]; reads; reflexivity.
  - intros k. rewrite filesystem_record, filesystem_write_filesystem, !Hf2.
    unfold at_zero.
    destruct (decide (k = f)) as [->|Hk]; reads; [|reflexivity].
    records. rewrite <- Hfree. now destruct (filesystem s f).
  - intros k. reads. rewrite Hi. unfold at_zero. reads. reflexivity.
  - reads. rewrite Ht. unfold at_zero. reads. now rewrite <- !app_assoc.
Qed.

Lemma DecRef_locked_child_held d s f i p :
  fs (dentry s d) = Some f ->
  mu (filesystem s f) = false ->
  DentryRefs (dentry s d) = 1 ->
  inode (dentry s d) = Some i ->
  parent (dentry s d) = Some p ->
  dirMu (dentry s p) = true ->
  exists s', DecRef_locked d s = Blocked s'.
Proof.
  intros Hfs Hfree Hrefs Hino Hpar Hheld.
  destruct (DecRef_destroy_child_held d false (at_zero d f s) i p) as (s2 & Hrun);
    [unfold at_zero; reads; fields; try assumption..|].
  { destruct (decide (p = d)) as [->|Hne]; reads; fields; assumption. }
  exists s2. rewrite (DecRef_locked_zero d s f) by assumption.
  apply bind_Blocked, Hrun.
Qed.

(** The last reference of a dentry with a parent: the binding of its name
    in the parent's map is deleted when there is one, whatever it is bound
    to, and then [d] is reported to the vfs layer as invalidated. *)
Lemma DecRef_locked_child d s f i p :
  fs (dentry s d) = Some f ->
  mu (filesystem s f) = false ->
  DentryRefs (dentry s d) = 1 ->
  inode (dentry s d) = Some i ->
  parent (dentry s d) = Some p ->
  dirMu (dentry s p) = false ->
  exists s',
    DecRef_locked d s = Ret true s'
    /\ (forall k, dentry s' k =
          (if decide (k = p)
           then fun x =>
                  match children_map (dentry s p) !! name (dentry s d) with
                  | Some _ => delete_child (name (dentry s d)) x
                  | None => x
                  end
           else fun x => x)
            ((if decide (k = d)
              then fun x => set_inode None (set_DentryRefs 0 x)
              else fun x => x) (dentry s k)))
    /\ (forall k, filesystem s' k = filesystem s k)
    /\ (forall k, inode_obj s' k =
          if decide (k = i)
          then set_Inode_refs (Inode_refs (inode_obj s k) - 1) (inode_obj s k)
          else inode_obj s k)
    /\ trace s' = trace s
         ++ [EvLock (Filesystem_mu f); EvDecRef d; EvInodeDecRef i;
             EvLock (Dentry_dirMu p)]
         ++ match children_map (dentry s p) !! name (dentry s d) with
            | Some _ => [EvInvalidateDentry d]
            | None => []
            end
         ++ [EvUnlock (Dentry_dirMu p); EvUnlock (Filesystem_mu f)].
Proof.
  intros Hfs Hfree Hrefs Hino Hpar Hp.
  assert (Hname : name (dentry (at_zero d f s) d) = name (dentry s d))
    by (unfold at_zero; reads; reflexivity).
  assert (Hmap : children_map (dentry (at_zero d f s) p) = children_map (dentry s p)).
  { unfold at_zero. destruct (decide (p = d)) as [->|Hne]; reads; reflexivity. }
  destruct (DecRef_destroy_child d false (at_zero d f s) i p)
    as (s2 & Hrun & Hd & Hi & Hf & Ht).
  { unfold at_zero; reads; fields; assumption. }
  { unfold at_zero; reads; fields; assumption. }
  { unfold at_zero. destruct (decide (p = d)) as [->|Hne]; reads; fields; assumption. }
  rewrite Hname, Hmap in Hd, Ht.
  eexists. split.
  { rewrite (DecRef_locked_zero d s f) by assumption.
    eapply bind_Ret; [exact Hrun|]. step. reflexivity. }
  assert (Hf2 : forall k, filesystem s2 k = filesystem (at_zero d f s) k).
  { intros k. unfold filesystem. now rewrite Hf. }
  repeat split.
  - intros k. reads. rewrite Hd. unfold at_zero.
    destruct (decide (k = d)) as [->|Hk]; reads; reflexivity.
  - intros k. rewrite filesystem_record, filesystem_write_filesystem, !Hf2.
    unfold at_zero.
    destruct (decide (k = f)) as [->|Hk]; reads; [|reflexivity].
    records. rewrite <- Hfree. now destruct (filesystem s f).
  - intros k. reads. rewrite Hi. unfold at_zero. reads. reflexivity.
  - reads. rewrite Ht. unfold at_zero. reads. now rewrite <- !app_assoc.
Qed.

(** [DecRef_locked] asks for a call on the parent only after it destroyed
    a dentry that had a filesystem, an inode, a parent and a count of one. *)
Lemma DecRef_locked_true_inv d s s' :
  DecRef_locked d s = Ret true s' ->
  exists f i p,
    fs (dentry s d) = Some f
    /\ mu (filesystem s f) = false
    /\ DentryRefs (dentry s d) = 1
    /\ inode (dentry s d) = Some i
    /\ parent (dentry s d) = Some p
    /\ dirMu (dentry s p) = false.
Proof.
  intros Hrun.
  destruct (fs (dentry s d)) as [f|] eqn:Hfs;
    [|rewrite DecRef_locked_nil_fs in Hrun by assumption; discriminate].
  destruct (mu (filesystem s f)) eqn:Hmu;
    [rewrite (DecRef_locked_held d s f) in Hrun by assumption; discriminate|].
  destruct (decide (DentryRefs (dentry s d) = 1)) as [Hrefs|Hrefs].
  2: { destruct (DecRef_locked_keep d s f) as (s2 & Hrun2 & _); try assumption.
       rewrite Hrun2 in Hrun. discriminate. }
  destruct (inode (dentry s d)) as [i|] eqn:Hino;
    [|rewrite (DecRef_locked_nil_inode d s f) in Hrun by assumption; discriminate].
  destruct (parent (dentry s d)) as [p|] eqn:Hpar.
  2: { destruct (DecRef_locked_root d s f i) as (s2 & Hrun2 & _); try assumption.
       rewrite Hrun2 in Hrun. discriminate. }
  destruct (dirMu (dentry s p)) eqn:Hp.
  { destruct (DecRef_locked_child_held d s f i p) as (s2 & Hrun2); try assumption.
    rewrite Hrun2 in Hrun. discriminate. }
  exists f, i, p. repeat split; auto.
Qed.

(** ** [Dentry.DecRef] returns *)

Lemma last_references_spec s k :
  k ∈ last_references s <-> last_reference (dentry s k).
Proof.
  unfold last_references, dentry. rewrite elem_of_dom, lookup_total_alt. split.
  - intros [x Hx]. apply map_lookup_filter_Some in Hx as [Hx HP].
    now rewrite Hx.
  - intros HP. destruct (dentries s !! k) as [x|] eqn:Hx.
    + exists x. apply map_lookup_filter_Some. auto.
    + destruct HP as [_ [f Hf]]. discriminate.
Qed.

Lemma delete_child_DentryRefs nm x : DentryRefs (delete_child nm x) = DentryRefs x.
Proof. unfold delete_child. now destruct (children x). Qed.

Lemma delete_child_fs nm x : fs (delete_child nm x) = fs x.
Proof. unfold delete_child. now destruct (children x). Qed.

Lemma delete_child_parent nm x : parent (delete_child nm x) = parent x.
Proof. unfold delete_child. now destruct (children x). Qed.

Lemma DecRef_locked_true_depth d s s' :
  DecRef_locked d s = Ret true s' ->
  (size (last_references s') < size (last_references s))%nat
  /\ exists p, parent (dentry s' d) = Some p.
Proof.
  intros Hrun.
  destruct (DecRef_locked_true_inv d s s' Hrun)
    as (f & i & p & Hfs & Hmu & Hrefs & Hino & Hpar & Hp).
  destruct (DecRef_locked_child d s f i p) as (s2 & Hrun2 & Hd & _); try assumption.
  rewrite Hrun in Hrun2. injection Hrun2 as <-.
  assert (Hrefs' : forall k, DentryRefs (dentry s' k)
                    = if decide (k = d) then 0 else DentryRefs (dentry s k)).
  { intros k. rewrite Hd.
    destruct (decide (k = p)), (decide (k = d));
      try destruct (children_map _ !! _); now rewrite ?delete_child_DentryRefs. }
  assert (Hfs' : forall k, fs (dentry s' k) = fs (dentry s k)).
  { intros k. rewrite Hd.
    destruct (decide (k = p)), (decide (k = d));
      try destruct (children_map _ !! _); now rewrite ?delete_child_fs. }
  split.
  - apply subset_size. apply strict_spec_alt. split.
    + intros k. rewrite !last_references_spec. unfold last_reference.
      rewrite Hrefs', Hfs'. destruct (decide (k = d)); [lia | auto].
    + intros Heq.
      assert (Hin : d ∈ last_references s).
      { apply last_references_spec. split; [exact Hrefs | rewrite Hfs; eauto]. }
      rewrite <- Heq in Hin. apply last_references_spec in Hin as [Hone _].
      rewrite Hrefs' in Hone. destruct (decide (d = d)); [lia | congruence].
  - exists p. rewrite Hd.
    destruct (decide (d = p)), (decide (d = d));
      try destruct (children_map _ !! _); try congruence;
      now rewrite ?delete_child_parent.
Qed.

Lemma DecRef_fuel_enough n : forall d s,
  (size (last_references s) < n)%nat -> exists o, DecRef_fuel n d s = Some o.
Proof.
  induction n as [|n IH]; intros d s Hn; [lia|].
  cbn [DecRef_fuel].
  destruct (DecRef_locked d s) as [[] s'|v s'|s'] eqn:Hrun; eauto.
  destruct (DecRef_locked_true_depth d s s' Hrun) as [Hlt [p ->]].
  apply IH. lia.
Qed.

Lemma DecRef_fuel_mono n : forall m d s o,
  DecRef_fuel n d s = Some o -> (n <= m)%nat -> DecRef_fuel m d s = Some o.
Proof.
  induction n as [|n IH]; intros m d s o Hrun Hle; [discriminate|].
  destruct m as [|m]; [lia|]. cbn [DecRef_fuel] in *.
  destruct (DecRef_locked d s) as [[] s'|v s'|s']; auto.
  destruct (parent (dentry s' d)); auto. apply IH; [exact Hrun | lia].
Qed.

(** The fuel [DecRef] gives itself is enough. *)
Lemma DecRef_total d s : DecRef_fuel (DecRef_depth s) d s = Some (DecRef d s).
Proof.
  unfold DecRef.
  destruct (DecRef_fuel_enough (DecRef_depth s) d s) as [o Ho];
    [unfold DecRef_depth; lia|].
  now rewrite Ho.
Qed.

(** [Dentry.DecRef], as the source has it: the locked part, then the call
    on the parent when a dentry with a parent was destroyed. *)
Lemma DecRef_unfold d s :
  DecRef d s
  = match DecRef_locked d s with
    | Ret true s' =>
        match parent (dentry s' d) with
        | Some p => DecRef p s'
        | None => Panic NilPointerDereference s'
        end
    | Ret false s' => Ret tt s'
    | Panic v s' => Panic v s'
    | Blocked s' => Blocked s'
    end.
Proof.
  pose proof (DecRef_total d s) as Htotal.
  unfold DecRef_depth in Htotal. cbn [DecRef_fuel] in Htotal.
  destruct (DecRef_locked d s) as [[] s'|v s'|s'] eqn:Hrun;
    try (now injection Htotal as <-).
  destruct (DecRef_locked_true_depth d s s' Hrun) as [Hlt [p Hp]].
  rewrite Hp in *.
  pose proof (DecRef_total p s') as Hp'.
  apply (DecRef_fuel_mono _ (size (last_references s))) in Hp';
    [|unfold DecRef_depth; lia].
  rewrite Hp' in Htotal. now injection Htotal as <-.
Qed.

Lemma keeps_DecRef d : keeps (DecRef d).
Proof. intros s. eapply DecRef_fuel_stable, DecRef_total. Qed.

#[local] Hint Resolve keeps_DecRef : keeps.

Lemma keeps_run_deferred calls : keeps (run_deferred calls).
Proof.
  induction calls as [|d calls IH]; intros s; cbn [run_deferred].
  - apply stable_refl.
  - pose proof (keeps_DecRef d s) as Hd.
    destruct (DecRef d s) as [[] s'|v s'|s']; cbn [final_state] in Hd.
    + eapply stable_trans; [exact Hd | apply IH].
    + specialize (IH s').
      destruct (run_deferred calls s'); cbn [final_state] in *;
        eapply stable_trans; eauto.
    + exact Hd.
Qed.

#[local] Hint Resolve keeps_run_deferred : keeps.

Lemma keeps_processDeferredDecRefs f : keeps (processDeferredDecRefs f).
Proof. unfold processDeferredDecRefs. keeps_go. Qed.

(** ** The queue of dropped dentries *)

Lemma deferDecRef_free f d s :
  droppedDentriesMu (filesystem s f) = false ->
  exists s',
    deferDecRef f d s = Ret tt s'
    /\ (forall k, filesystem s' k =
          if decide (k = f)
          then set_droppedDentries (droppedDentries (filesystem s k) ++ [d]) (filesystem s k)
          else filesystem s k)
    /\ dentries s' = dentries s
    /\ inodes s' = inodes s
    /\ trace s' = trace s
         ++ [EvLock (Filesystem_droppedDentriesMu f); EvQueueAppend f d;
             EvUnlock (Filesystem_droppedDentriesMu f)].
Proof.
  intros Hfree. eexists. split.
  { unfold deferDecRef, emit. repeat step. reflexivity. }
  repeat split; try reflexivity.
  - intros k. destruct (decide (k = f)) as [->|Hk]; reads; [|reflexivity].
    records. rewrite <- Hfree at 1. now destruct (filesystem s f).
  - reads. now rewrite <- !app_assoc.
Qed.


Lemma dentry_drained f s k : dentry (drained f s) k = dentry s k.
Proof. reflexivity. Qed.

Lemma filesystem_drained f s k :
  droppedDentriesMu (filesystem s f) = false ->
  filesystem (drained f s) k =
  if decide (k = f) then set_droppedDentries [] (filesystem s k) else filesystem s k.
Proof.
  intros Hfree. unfold drained. cbv zeta.
  destruct (decide (k = f)) as [->|Hk]; reads; [|reflexivity].
  records. now rewrite <- Hfree at 1.
Qed.

Lemma trace_drained f s :
  trace (drained f s) = trace s
    ++ [EvLock (Filesystem_droppedDentriesMu f); EvQueueReset f;
        EvUnlock (Filesystem_droppedDentriesMu f)].
Proof. unfold drained. cbv zeta. reads. now rewrite <- !app_assoc. Qed.

(** [processDeferredDecRefs] empties the queue between [Lock] and [Unlock]
    and then runs the deferred calls, the last deferred first. *)
Lemma processDeferredDecRefs_free f s :
  droppedDentriesMu (filesystem s f) = false ->
  processDeferredDecRefs f s
  = run_deferred (rev (droppedDentries (filesystem s f))) (drained f s).
Proof.
  intros Hfree. unfold processDeferredDecRefs, emit. do 5 step.
  unfold drained. cbv zeta. reads. reflexivity.
Qed.

Lemma processDeferredDecRefs_held f s :
  droppedDentriesMu (filesystem s f) = true -> processDeferredDecRefs f s = Blocked s.
Proof. intros Hheld. apply bind_Blocked, Lock_held, Hheld. Qed.

(** Deferred calls that drop no last reference: every call returns, and
    each takes exactly one reference from the dentry it is made on. *)
Lemma run_deferred_keep (calls : list loc) : forall s,
  (forall d, In d calls ->
     exists f, fs (dentry s d) = Some f /\ mu (filesystem s f) = false) ->
  (forall d, In d calls ->
     Z.of_nat (count_occ Nat.eq_dec calls d) < DentryRefs (dentry s d)) ->
  exists s',
    run_deferred calls s = Ret tt s'
    /\ (forall k, dentry s' k =
          set_DentryRefs
            (DentryRefs (dentry s k) - Z.of_nat (count_occ Nat.eq_dec calls k))
            (dentry s k))
    /\ (forall k, filesystem s' k = filesystem s k)
    /\ inodes s' = inodes s
    /\ trace s' = trace s ++ flat_map (DecRef_keep_events s) calls.
Proof.
  induction calls as [|d calls IH]; intros s Hfs Hrefs.
  - exists s. cbn [run_deferred count_occ flat_map]. repeat split; try reflexivity.
    + intros k. rewrite Z.sub_0_r. now destruct (dentry s k).
    + now rewrite app_nil_r.
  - destruct (Hfs d) as (f & Hf & Hmu); [now left|].
    pose proof (Hrefs d ltac:(now left)) as Hd.
    cbn [count_occ] in Hd. destruct (Nat.eq_dec d d) as [_|]; [|congruence].
    destruct (DecRef_locked_keep d s f) as (s1 & Hrun & Hview & Hfsys & Hino & Htr);
      [assumption | assumption | lia |].
    destruct (IH s1) as (s2 & Hrun2 & Hview2 & Hfsys2 & Hino2 & Htr2).
    { intros k Hk. destruct (Hfs k) as (fk & Hfk & Hmuk); [now right|].
      exists fk. rewrite Hview, Hfsys.
      destruct (decide (k = d)); auto. }
    { intros k Hk. specialize (Hrefs k ltac:(now right)). cbn [count_occ] in Hrefs.
      rewrite Hview.
      destruct (decide (k = d)) as [->|Hne].
      - destruct (Nat.eq_dec d d); [cbn [DentryRefs set_DentryRefs]; lia | congruence].
      - destruct (Nat.eq_dec d k); [congruence | exact Hrefs]. }
    exists s2. split.
    { cbn [run_deferred]. rewrite DecRef_unfold, Hrun. exact Hrun2. }
    repeat split.
    + intros k. rewrite Hview2, Hview. cbn [count_occ].
      destruct (decide (k = d)) as [->|Hne].
      * destruct (Nat.eq_dec d d); [|congruence].
        records. f_equal. lia.
      * destruct (Nat.eq_dec d k); [congruence | reflexivity].
    + intros k. now rewrite Hfsys2.
    + now rewrite Hino2.
    + rewrite Htr2, Htr. cbn [flat_map]. rewrite <- app_assoc. f_equal.
      unfold DecRef_keep_events at 2. rewrite Hf. cbn [app]. do 3 f_equal.
      apply flat_map_ext. intros k. unfold DecRef_keep_events. rewrite Hview.
      now destruct (decide (k = d)) as [->|].
Qed.

(** ** Initialisation and the cached flags *)

Section Init.
Context `{!pkg_linux}.

Lemma Init_fresh d f i s :
  flags (dentry s d) = 0 ->
  let ftype := FileMode_FileType (Inode_Mode (inode_obj s i)) in
  exists s',
    Init d f i s = Ret tt s'
    /\ (forall k, dentry s' k =
          if decide (k = d)
          then set_flags
                 (Z.lor (if bool_decide (ftype = ModeDirectory) then dflagsIsDir else 0)
                        (if bool_decide (ftype = ModeSymlink) then dflagsIsSymlink else 0))
                 (set_inode (Some i) (set_fs (Some f) (set_vfsd (Some d) (dentry s k))))
          else dentry s k)
    /\ filesystems s' = filesystems s
    /\ inodes s' = inodes s
    /\ trace s' = trace s.
Proof.
  intros Hflags ftype. unfold Init, DentryRefs_EnableLeakCheck.
  destruct (bool_decide (ftype = ModeDirectory)) eqn:Hdir;
    destruct (bool_decide (ftype = ModeSymlink)) eqn:Hsym.
  all: eexists; split;
    [ do 4 step; fold ftype; rewrite Hdir; step; rewrite Hsym; step; reflexivity
    | repeat split; try reflexivity;
      intros k; destruct (decide (k = d)) as [->|Hk]; reads; records;
      rewrite ?Hflags; reflexivity ].
Qed.

End Init.

Lemma isSymlink_eq d s :
  isSymlink d s = Ret (negb (Z.land (flags (dentry s d)) dflagsIsSymlink =? 0)) s.
Proof. reflexivity. Qed.

(** ** Inode numbers *)

Lemma NextIno_eq f s :
  NextIno f s
  = Ret (uint64 (nextInoMinusOne (filesystem s f) + 1))
      (write_filesystem f
         (set_nextInoMinusOne (uint64 (nextInoMinusOne (filesystem s f) + 1))
            (filesystem s f)) s).
Proof. reflexivity. Qed.

(** [n] calls return the [n] numbers that follow the counter, and leave
    the counter at the last of them. *)
Lemma NextIno_calls_eq n : forall f s,
  exists s',
    NextIno_calls n f s
    = Ret (map (fun k => uint64 (nextInoMinusOne (filesystem s f) + Z.of_nat k)) (seq 1 n)) s'
    /\ uint64 (nextInoMinusOne (filesystem s' f))
       = uint64 (nextInoMinusOne (filesystem s f) + Z.of_nat n)
    /\ dentries s' = dentries s
    /\ inodes s' = inodes s
    /\ trace s' = trace s.
Proof.
  induction n as [|n IH]; intros f s.
  - exists s. cbn [NextIno_calls seq map]. repeat split; try reflexivity.
    now rewrite Z.add_0_r.
  - set (c := nextInoMinusOne (filesystem s f)).
    set (s1 := write_filesystem f (set_nextInoMinusOne (uint64 (c + 1)) (filesystem s f)) s).
    destruct (IH f s1) as (s2 & Hrun & Hc & Hd & Hi & Ht).
    assert (Hc1 : nextInoMinusOne (filesystem s1 f) = uint64 (c + 1))
      by (unfold s1; reads; reflexivity).
    rewrite Hc1 in Hrun, Hc.
    exists s2. split; [|repeat split; auto].
    + cbn [NextIno_calls]. eapply bind_Ret; [apply NextIno_eq|]. fold c s1.
      eapply bind_Ret; [exact Hrun|]. unfold ret. f_equal.
      cbn [seq map]. f_equal.
      rewrite <- (seq_shift n 1), map_map. apply map_ext. intros k.
      unfold uint64. rewrite Zplus_mod_idemp_l. f_equal. lia.
    + rewrite Hc. unfold uint64. rewrite Zplus_mod_idemp_l. f_equal. lia.
Qed.

(** ** Calls on an initialised tree *)

Lemma keeps_call op :
  (forall f, op <> Call_NextIno f) -> keeps (call op).
Proof.
  intros Hop. destruct op; cbn [call];
    try (apply keeps_bind; [|intros; apply keeps_ret]);
    auto using keeps_deferDecRef, keeps_processDeferredDecRefs, keeps_DecRef,
      keeps_insertChild, keeps_insertChildLocked, keeps_gets.
  - now destruct (Hop fs0).
  - unfold isDir. keeps_go.
  - unfold isSymlink. keeps_go.
Qed.

(** No call changes the flags of a dentry. *)
Lemma call_flags op s k :
  flags (dentry (final_state (call op s)) k) = flags (dentry s k).
Proof.
  destruct op; try reflexivity; now apply keeps_call.
Qed.

Lemma calls_flags ops : forall s k,
  flags (dentry (final_state (calls ops s)) k) = flags (dentry s k).
Proof.
  induction ops as [|op ops IH]; intros s k; [reflexivity|].
  cbn [calls]. unfold bind. pose proof (call_flags op s k) as Hop.
  destruct (call op s) as [[] s'|v s'|s']; cbn [final_state] in *; auto.
  now rewrite IH.
Qed.

(** Only [NextIno] changes the inode counter of a filesystem. *)
Lemma calls_nextIno ops : forall s f,
  (forall f', ~ In (Call_NextIno f') ops) ->
  nextInoMinusOne (filesystem (final_state (calls ops s)) f)
  = nextInoMinusOne (filesystem s f).
Proof.
  induction ops as [|op ops IH]; intros s f Hno; [reflexivity|].
  cbn [calls]. unfold bind.
  assert (Hop : stable s (final_state (call op s))).
  { apply keeps_call. intros f' ->. apply (Hno f'). now left. }
  destruct Hop as (_ & _ & Hop & _). specialize (Hop f).
  destruct (call op s) as [[] s'|v s'|s']; cbn [final_state] in *; auto.
  rewrite IH; [exact Hop|]. intros f' Hin. apply (Hno f'). now right.
Qed.

(** ** Insertion *)

Lemma insertChild_returns_inv s d nm child s' :
  insertChild d nm child s = Ret tt s' ->
  dirMu (dentry s d) = false /\ Z.land (flags (dentry s d)) dflagsIsDir <> 0.
Proof.
  intros Hrun.
  destruct (dirMu (dentry s d)) eqn:Hmu.
  { rewrite insertChild_held in Hrun by assumption. discriminate. }
  split; [reflexivity|]. intros Hdir.
  pose proof (insertChild_not_dir s d nm child Hmu Hdir) as Hpanic.
  rewrite Hrun in Hpanic. discriminate.
Qed.

(** C1, amended.  After [insertChild(d, name, child)] returns, the map of
    [d] binds [name] to [child], [child.parent] is [d], [child.name] is
    [name], and [d] has exactly one reference more than before; the count
    of [child] is unchanged when [child] is another dentry than [d]. *)
Theorem insertChild_spec (s s' : State) (d : loc) (nm : string) (child : loc) :
  insertChild d nm child s = Ret tt s' ->
  insertChild_links s d nm child s'
  /\ (child <> d -> insertChild_keeps_child_count s child s').
Proof.
  intros Hrun.
  destruct (insertChild_returns_inv _ _ _ _ _ Hrun) as [Hmu Hdir].
  destruct (insertChild_dir s d nm child Hmu Hdir) as (s2 & Hrun2 & Hview & _).
  rewrite Hrun in Hrun2. injection Hrun2 as <-.
  unfold insertChild_links, insertChild_keeps_child_count.
  rewrite !Hview. decides.
  destruct (decide (child = d)) as [->|Hne]; decides; records;
    rewrite ?lookup_insert_eq; repeat split; congruence.
Qed.

(** A directory whose [dirMu] is free takes a child: the call returns. *)
Lemma insertChild_returns s d nm child :
  dirMu (dentry s d) = false ->
  Z.land (flags (dentry s d)) dflagsIsDir <> 0 ->
  exists s', insertChild d nm child s = Ret tt s'.
Proof.
  intros Hmu Hdir.
  destruct (insertChild_dir s d nm child Hmu Hdir) as (s' & Hrun & _). eauto.
Qed.

(** Dentry 2 inserted under the directory 1. *)
Lemma insertChild_spec_witness :
  insertChild_links replaced_entry 1%nat "y" 2%nat
    (final_state (insertChild 1%nat "y" 2%nat replaced_entry))
  /\ insertChild_keeps_child_count replaced_entry 2%nat
       (final_state (insertChild 1%nat "y" 2%nat replaced_entry)).
Proof.
  destruct (insertChild_spec replaced_entry
              (final_state (insertChild 1%nat "y" 2%nat replaced_entry))
              1%nat "y" 2%nat) as [Hlinks Hcount].
  - vm_compute. reflexivity.
  - split; [exact Hlinks | apply Hcount; lia].
Defined.

(** C1, as stated, fails when a directory is inserted under itself: the
    call returns and links the dentry, and the count of the child, which
    is the count of the parent, has grown by one. *)
Lemma insertChild_self_counterexample :
  exists s',
    insertChild 1%nat "self" 1%nat replaced_entry = Ret tt s'
    /\ insertChild_links replaced_entry 1%nat "self" 1%nat s'
    /\ ~ insertChild_keeps_child_count replaced_entry 1%nat s'.
Proof.
  eexists. split; [vm_compute; reflexivity|]. split.
  - vm_compute. repeat split; reflexivity.
  - vm_compute. discriminate.
Qed.

(** C6.  Broken preconditions are fatal and leave things as they were:
    [insertChildLocked] panics exactly when the parent is not a directory,
    [registerMatchMaker] exactly when the name is already registered,
    [registerTargetMaker] exactly when the id is already registered, and a
    call that panics has changed neither the memory nor the registries. *)
Theorem invariant_violations_are_fatal `{!netfilter.pkg_stack} :
  (forall (s : State) (d : loc) (nm : string) (child : loc),
     (panics (insertChildLocked d nm child s) = true <-> isDir d s = Ret false s)
     /\ (panics (insertChildLocked d nm child s) = true ->
         final_state (insertChildLocked d nm child s) = s))
  /\ (forall (g : netfilter.Globals) (mm : netfilter.matchMaker),
        (panics (netfilter.registerMatchMaker mm g) = true
         <-> is_Some (netfilter.matchMakers g !! netfilter.matchMaker_name mm))
        /\ (panics (netfilter.registerMatchMaker mm g) = true ->
            final_state (netfilter.registerMatchMaker mm g) = g))
  /\ (forall (g : netfilter.Globals) (tm : netfilter.targetMaker),
        (panics (netfilter.registerTargetMaker tm g) = true
         <-> is_Some (netfilter.targetMakers g !! netfilter.targetMaker_id tm))
        /\ (panics (netfilter.registerTargetMaker tm g) = true ->
            final_state (netfilter.registerTargetMaker tm g) = g)).
Proof.
  split; [|split].
  - intros s d nm child. rewrite isDir_eq.
    destruct (decide (Z.land (flags (dentry s d)) dflagsIsDir = 0)) as [Hfile|Hdir].
    + rewrite insertChildLocked_not_dir by assumption. rewrite Hfile.
      repeat split; reflexivity.
    + destruct (insertChildLocked_dir s d nm child Hdir) as (s' & -> & _).
      apply Z.eqb_neq in Hdir. rewrite Hdir. cbn [panics negb].
      repeat split; discriminate.
  - intros g mm.
    destruct (netfilter.matchMakers g !! netfilter.matchMaker_name mm) as [old|] eqn:Hlook.
    + rewrite (netfilter_facts.registerMatchMaker_taken _ _ _ Hlook).
      repeat split; eauto.
    + rewrite (netfilter_facts.registerMatchMaker_fresh _ _ Hlook). cbn [panics].
      repeat split; try discriminate. intros [? ?]. discriminate.
  - intros g tm.
    destruct (netfilter.targetMakers g !! netfilter.targetMaker_id tm) as [old|] eqn:Hlook.
    + rewrite (netfilter_facts.registerTargetMaker_taken _ _ _ Hlook).
      repeat split; eauto.
    + rewrite (netfilter_facts.registerTargetMaker_fresh _ _ Hlook). cbn [panics].
      repeat split; try discriminate. intros [? ?]. discriminate.
Qed.

(** A child under the file dentry 2, and the makers of the sample
    registry registered once more. *)
Lemma invariant_violations_are_fatal_witness :
  final_state (insertChildLocked 2%nat "z" 3%nat replaced_entry) = replaced_entry
  /\ final_state (netfilter.registerMatchMaker netfilter.udp
                    (final_state (netfilter.registerMatchMaker netfilter.udp
                                    netfilter.no_extensions)))
     = final_state (netfilter.registerMatchMaker netfilter.udp netfilter.no_extensions)
  /\ final_state (netfilter.registerTargetMaker (netfilter.redirect 1)
                    netfilter.two_redirects)
     = netfilter.two_redirects.
Proof.
  destruct (@invariant_violations_are_fatal netfilter.stack_plain) as (Hd & Hm & Ht).
  split; [|split].
  - apply (Hd replaced_entry 2%nat "z" 3%nat). apply Hd. reflexivity.
  - apply Hm. apply Hm. vm_compute. eauto.
  - apply Ht. apply Ht. vm_compute. eauto.
Defined.

(** ** Dropping the last reference *)

(** When the name of [d] is not bound in the map of its parent, the
    destruction of [d] leaves the map as it is and reports nothing. *)
Lemma DecRef_locked_child_unbound d s f i p :
  fs (dentry s d) = Some f ->
  mu (filesystem s f) = false ->
  DentryRefs (dentry s d) = 1 ->
  inode (dentry s d) = Some i ->
  parent (dentry s d) = Some p ->
  dirMu (dentry s p) = false ->
  children_map (dentry s p) !! name (dentry s d) = None ->
  exists s',
    DecRef_locked d s = Ret true s'
    /\ children_map (dentry s' p) = children_map (dentry s p)
    /\ trace s' = trace s
         ++ [EvLock (Filesystem_mu f); EvDecRef d; EvInodeDecRef i;
             EvLock (Dentry_dirMu p); EvUnlock (Dentry_dirMu p);
             EvUnlock (Filesystem_mu f)].
Proof.
  intros Hfs Hmu Hrefs Hino Hpar Hp Hnone.
  destruct (DecRef_locked_child d s f i p) as (s' & Hrun & Hview & _ & _ & Htr);
    try assumption.
  exists s'. rewrite Hnone in *. split; [exact Hrun|]. split; [|exact Htr].
  rewrite Hview. decides. now destruct (decide (p = d)) as [->|].
Qed.

(** When the name is bound to [d] itself, the binding is deleted and [d]
    is reported. *)
Lemma DecRef_locked_child_bound d s f i p :
  fs (dentry s d) = Some f ->
  mu (filesystem s f) = false ->
  DentryRefs (dentry s d) = 1 ->
  inode (dentry s d) = Some i ->
  parent (dentry s d) = Some p ->
  dirMu (dentry s p) = false ->
  children_map (dentry s p) !! name (dentry s d) = Some d ->
  exists s',
    DecRef_locked d s = Ret true s'
    /\ children_map (dentry s' p) = delete (name (dentry s d)) (children_map (dentry s p))
    /\ trace s' = trace s
         ++ [EvLock (Filesystem_mu f); EvDecRef d; EvInodeDecRef i;
             EvLock (Dentry_dirMu p); EvInvalidateDentry d;
             EvUnlock (Dentry_dirMu p); EvUnlock (Filesystem_mu f)].
Proof.
  intros Hfs Hmu Hrefs Hino Hpar Hp Hsome.
  destruct (DecRef_locked_child d s f i p) as (s' & Hrun & Hview & _ & _ & Htr);
    try assumption.
  exists s'. rewrite Hsome in *. split; [exact Hrun|]. split; [|exact Htr].
  rewrite Hview. decides. unfold children_map in *.
  destruct (decide (p = d)) as [->|Hne]; records;
    (destruct (children (dentry s _)) as [m|]; cbn [children default from_option id] in *;
     [reflexivity | now rewrite lookup_empty in Hsome]).
Qed.

(** The sample tree is what two insertions under the same name leave:
    the second binds the name to dentry 3 and dentry 2 keeps its parent
    and its name. *)
Example replaced_entry_reachable :
  dentries (final_state
              (calls [Call_insertChild 1%nat "x" 2%nat; Call_insertChild 1%nat "x" 3%nat]
                 before_lookups))
  = dentries replaced_entry.
Proof. vm_compute. reflexivity. Qed.

(** C2, on the code.  Dentry 2 was taken out of the map of its parent 1
    and the name ["x"] is bound to dentry 3.  Dropping the last reference
    of 2 takes [fs.mu], decrements, releases the inode 11 and, with
    [fs.mu] released, drops the reference on the parent; but it also
    deletes the binding of ["x"], which is dentry 3, and reports dentry 2,
    which was not in the map, to the vfs layer. *)
Theorem DecRef_unlinks_replacement :
  children_map (dentry replaced_entry 1%nat) !! "x" = Some 3%nat
  /\ exists s',
       DecRef 2%nat replaced_entry = Ret tt s'
       /\ children_map (dentry s' 1%nat) !! "x" = None
       /\ trace s'
          = [EvLock (Filesystem_mu 0%nat); EvDecRef 2%nat; EvInodeDecRef 11%nat;
             EvLock (Dentry_dirMu 1%nat); EvInvalidateDentry 2%nat;
             EvUnlock (Dentry_dirMu 1%nat); EvUnlock (Filesystem_mu 0%nat);
             EvLock (Filesystem_mu 0%nat); EvDecRef 1%nat;
             EvUnlock (Filesystem_mu 0%nat)].
Proof.
  split; [reflexivity|]. eexists. split; [vm_compute; reflexivity|].
  split; vm_compute; reflexivity.
Qed.

(** C7, on the code.  Dentry 2 is bound to no name in the map of its
    parent, yet the removal step of its destruction changes that map: it
    deletes the binding of dentry 3. *)
Theorem DecRef_of_removed_entry_mutates :
  (forall nm, children_map (dentry replaced_entry 1%nat) !! nm <> Some 2%nat)
  /\ exists s',
       DecRef_locked 2%nat replaced_entry = Ret true s'
       /\ children_map (dentry s' 1%nat) <> children_map (dentry replaced_entry 1%nat)
       /\ children_map (dentry s' 1%nat) = ∅.
Proof.
  split.
  - intros nm Hnm.
    change (children_map (dentry replaced_entry 1%nat))
      with ({["x" := 3%nat]} : gmap string loc) in Hnm.
    apply lookup_singleton_Some in Hnm as [_ Hnm]. discriminate.
  - eexists. split; [vm_compute; reflexivity|]. split.
    + intros Heq. apply (f_equal (fun m => m !! "x")) in Heq. vm_compute in Heq.
      discriminate.
    + vm_compute. reflexivity.
Qed.

(** ** Deferred drops *)

Lemma trace_run_deferred calls s :
  trace s `prefix_of` trace (final_state (run_deferred calls s)).
Proof. apply keeps_run_deferred. Qed.

(** C3.  With the mutex of the queue free, [deferDecRef] appends the
    dentry to the queue and touches no dentry and no inode;
    [processDeferredDecRefs] empties the queue between the [Lock] and the
    [Unlock] of that mutex and only then runs one [DecRef] call for each
    entry that was queued, the last queued first.  When none of these drops
    a last reference, every call returns and each dentry has lost exactly
    as many references as it had entries in the queue, by decrements that
    all follow the [Unlock] in the trace. *)
Theorem deferred_DecRefs (s : State) (f d : loc) :
  droppedDentriesMu (filesystem s f) = false ->
  let queue_mu := Filesystem_droppedDentriesMu f in
  let queued := droppedDentries (filesystem s f) in
  (exists s',
     deferDecRef f d s = Ret tt s'
     /\ droppedDentries (filesystem s' f) = queued ++ [d]
     /\ dentries s' = dentries s
     /\ inodes s' = inodes s
     /\ trace s' = trace s ++ [EvLock queue_mu; EvQueueAppend f d; EvUnlock queue_mu])
  /\ processDeferredDecRefs f s = run_deferred (rev queued) (drained f s)
  /\ droppedDentries (filesystem (drained f s) f) = []
  /\ held queue_mu (drained f s) = false
  /\ (forall k, dentry (drained f s) k = dentry s k)
  /\ inodes (drained f s) = inodes s
  /\ trace (drained f s) = trace s ++ [EvLock queue_mu; EvQueueReset f; EvUnlock queue_mu]
  /\ trace (drained f s) `prefix_of` trace (final_state (processDeferredDecRefs f s))
  /\ ((forall k, In k queued ->
         exists fk, fs (dentry s k) = Some fk /\ mu (filesystem s fk) = false) ->
      (forall k, In k queued ->
         Z.of_nat (count_occ Nat.eq_dec queued k) < DentryRefs (dentry s k)) ->
      exists s',
        processDeferredDecRefs f s = Ret tt s'
        /\ (forall k, DentryRefs (dentry s' k)
                      = DentryRefs (dentry s k) - Z.of_nat (count_occ Nat.eq_dec queued k))
        /\ droppedDentries (filesystem s' f) = []
        /\ trace s' = trace s
             ++ [EvLock queue_mu; EvQueueReset f; EvUnlock queue_mu]
             ++ flat_map (DecRef_keep_events s) (rev queued)).
Proof.
  intros Hfree queue_mu queued.
  pose proof (processDeferredDecRefs_free f s Hfree) as Hrun.
  pose proof (filesystem_drained f s f Hfree) as Hf.
  rewrite decide_True in Hf by reflexivity.
  repeat match goal with |- _ /\ _ => split end.
  - destruct (deferDecRef_free f d s Hfree) as (s' & Hd & Hq & Hrest).
    exists s'. split; [exact Hd|]. split; [|exact Hrest].
    rewrite Hq. decides. reflexivity.
  - exact Hrun.
  - now rewrite Hf.
  - unfold queue_mu, held. rewrite Hf. exact Hfree.
  - reflexivity.
  - reflexivity.
  - apply trace_drained.
  - rewrite Hrun. apply trace_run_deferred.
  - intros Hfs Hrefs.
    destruct (run_deferred_keep (rev queued) (drained f s))
      as (s' & Hrun' & Hview & Hfsys & Hino & Htr).
    { intros k Hk. apply in_rev in Hk. destruct (Hfs k Hk) as (fk & Hfk & Hmu).
      exists fk. rewrite dentry_drained. split; [exact Hfk|].
      rewrite filesystem_drained by exact Hfree.
      destruct (decide (fk = f)) as [->|]; [exact Hmu | exact Hmu]. }
    { intros k Hk. apply in_rev in Hk. rewrite dentry_drained.
      rewrite count_occ_rev. now apply Hrefs. }
    exists s'. split; [now rewrite Hrun|]. split; [|split].
    + intros k. rewrite Hview, dentry_drained. cbn [DentryRefs set_DentryRefs].
      now rewrite count_occ_rev.
    + now rewrite Hfsys, Hf.
    + rewrite Htr, trace_drained, <- app_assoc. do 2 f_equal.
Qed.

(** Dentries 2, 3 and 2 again are waiting in the queue of filesystem 0. *)
Lemma deferred_DecRefs_witness :
  exists s',
    processDeferredDecRefs 0%nat queued_entries = Ret tt s'
    /\ (forall k, DentryRefs (dentry s' k)
                  = DentryRefs (dentry queued_entries k)
                    - Z.of_nat (count_occ Nat.eq_dec [2; 3; 2]%nat k))
    /\ droppedDentries (filesystem s' 0%nat) = []
    /\ trace s' = trace queued_entries
         ++ [EvLock (Filesystem_droppedDentriesMu 0%nat); EvQueueReset 0%nat;
             EvUnlock (Filesystem_droppedDentriesMu 0%nat)]
         ++ flat_map (DecRef_keep_events queued_entries) (rev [2; 3; 2]%nat).
Proof.
  apply (deferred_DecRefs queued_entries 0%nat 1%nat).
  - reflexivity.
  - intros k [<-|[<-|[<-|[]]]]; exists 0%nat; split; reflexivity.
  - intros k [<-|[<-|[<-|[]]]]; vm_compute; reflexivity.
Defined.

(** ** The inode reference of a dentry *)

Lemma delete_child_inode nm x : inode (delete_child nm x) = inode x.
Proof. unfold delete_child. now destruct (children x). Qed.

(** Occurrences of an event in an explicit list of events. *)
Ltac count_events :=
  cbn [app];
  repeat first [ rewrite count_occ_cons_eq by reflexivity
               | rewrite count_occ_cons_neq by discriminate ];
  reflexivity.

Ltac no_events :=
  let k := fresh "k" in let Hk := fresh "Hk" in let Hin := fresh "Hin" in
  intros k Hk Hin; cbn [app In] in Hin; intuition congruence.

(** A drop that is not the last one leaves the inode where it is. *)
Lemma DecRef_locked_keeps_inode d s :
  DentryRefs (dentry s d) <> 1 ->
  let s' := final_state (DecRef_locked d s) in
  inode (dentry s' d) = inode (dentry s d)
  /\ inodes s' = inodes s
  /\ exists tr, trace s' = trace s ++ tr /\ forall i, ~ In (EvInodeDecRef i) tr.
Proof.
  intros Hrefs.
  destruct (fs (dentry s d)) as [f|] eqn:Hfs.
  2: { rewrite DecRef_locked_nil_fs by assumption. cbn. repeat split.
       exists []. rewrite app_nil_r. auto. }
  destruct (mu (filesystem s f)) eqn:Hmu.
  { rewrite (DecRef_locked_held d s f) by assumption. cbn. repeat split.
    exists []. rewrite app_nil_r. auto. }
  destruct (DecRef_locked_keep d s f Hfs Hmu Hrefs) as (s' & -> & Hview & _ & Hino & Htr).
  cbn [final_state]. rewrite Hview. decides. repeat split; [exact Hino|].
  eexists. split; [exact Htr|]. intros i [|[|[|[]]]]; discriminate.
Qed.

(** The last drop, when it returns, has released the inode once and has
    cleared the pointer to it. *)
Lemma DecRef_locked_releases_inode d s i :
  DentryRefs (dentry s d) = 1 ->
  inode (dentry s d) = Some i ->
  returns (DecRef_locked d s) = true ->
  let s' := final_state (DecRef_locked d s) in
  inode (dentry s' d) = None
  /\ Inode_refs (inode_obj s' i) = Inode_refs (inode_obj s i) - 1
  /\ (forall k, k <> i -> inode_obj s' k = inode_obj s k)
  /\ exists tr, trace s' = trace s ++ tr
                /\ count_occ event_eq_dec tr (EvInodeDecRef i) = 1%nat
                /\ forall k, k <> i -> ~ In (EvInodeDecRef k) tr.
Proof.
  intros Hrefs Hino Hret.
  destruct (fs (dentry s d)) as [f|] eqn:Hfs;
    [|rewrite DecRef_locked_nil_fs in Hret by assumption; discriminate].
  destruct (mu (filesystem s f)) eqn:Hmu;
    [rewrite (DecRef_locked_held d s f) in Hret by assumption; discriminate|].
  destruct (parent (dentry s d)) as [p|] eqn:Hpar.
  - destruct (dirMu (dentry s p)) eqn:Hp.
    { destruct (DecRef_locked_child_held d s f i p) as (s2 & Hrun); try assumption.
      rewrite Hrun in Hret. discriminate. }
    destruct (DecRef_locked_child d s f i p) as (s' & -> & Hview & _ & Hi & Htr);
      try assumption.
    cbn [final_state]. rewrite Hview, !Hi. decides. repeat split.
    + destruct (decide (d = p)), (children_map (dentry s p) !! name (dentry s d));
        now rewrite ?delete_child_inode.
    + intros k Hk. rewrite Hi. now decides.
    + eexists. split; [exact Htr|].
      destruct (children_map (dentry s p) !! name (dentry s d)); split;
        [ count_events | no_events | count_events | no_events ].
  - destruct (DecRef_locked_root d s f i) as (s' & -> & Hview & _ & Hi & Htr);
      try assumption.
    cbn [final_state]. rewrite Hview, !Hi. decides. repeat split.
    + intros k Hk. rewrite Hi. now decides.
    + eexists. split; [exact Htr|]. split; [count_events | no_events].
Qed.

Section Init_claim.
Context `{!pkg_linux}.

(** [Init] always returns and leaves the filesystems as they are. *)
Lemma Init_filesystems d f i s :
  exists s', Init d f i s = Ret tt s' /\ filesystems s' = filesystems s.
Proof.
  unfold Init, DentryRefs_EnableLeakCheck.
  destruct (bool_decide (FileMode_FileType (Inode_Mode (inode_obj s i)) = ModeDirectory))
    eqn:Hdir;
    destruct (bool_decide (FileMode_FileType (Inode_Mode (inode_obj s i)) = ModeSymlink))
      eqn:Hsym.
  all: eexists; split;
    [ do 4 step; rewrite Hdir; step; rewrite Hsym; step; reflexivity | reflexivity ].
Qed.

(** C5.  [Init(fs, inode)] on a dentry that was not initialised before
    stores the inode without touching its count, so the reference of the
    caller is the one the dentry holds; [isDir] and [isSymlink], which
    read the flags with an atomic load, then tell whether the file type of
    the inode was directory and whether it was symlink, and go on telling
    so after any sequence of calls on the tree.  The reference is given
    back by the drop of the last reference of the dentry, once, and by no
    other drop. *)
Theorem Init_transfers_and_caches (s : State) (d f i : loc) :
  flags (dentry s d) = 0 ->
  let ftype := FileMode_FileType (Inode_Mode (inode_obj s i)) in
  let dir := bool_decide (ftype = ModeDirectory) in
  let symlink := bool_decide (ftype = ModeSymlink) in
  exists s',
    Init d f i s = Ret tt s'
    /\ inode (dentry s' d) = Some i
    /\ inodes s' = inodes s
    /\ isDir d s' = Ret dir s'
    /\ isSymlink d s' = Ret symlink s'
    /\ Z.land (atomic_LoadUint32 (flags (dentry s' d))) dflagsIsDir
       = (if dir then dflagsIsDir else 0)
    /\ Z.land (atomic_LoadUint32 (flags (dentry s' d))) dflagsIsSymlink
       = (if symlink then dflagsIsSymlink else 0)
    /\ (forall ops : list operation,
          let s'' := final_state (calls ops s') in
          isDir d s'' = Ret dir s'' /\ isSymlink d s'' = Ret symlink s'')
    /\ (forall t : State,
          inode (dentry t d) = Some i ->
          let t' := final_state (DecRef_locked d t) in
          (DentryRefs (dentry t d) <> 1 ->
           inode (dentry t' d) = Some i
           /\ inodes t' = inodes t
           /\ exists tr, trace t' = trace t ++ tr
                         /\ forall k, ~ In (EvInodeDecRef k) tr)
          /\ (DentryRefs (dentry t d) = 1 ->
              returns (DecRef_locked d t) = true ->
              inode (dentry t' d) = None
              /\ Inode_refs (inode_obj t' i) = Inode_refs (inode_obj t i) - 1
              /\ exists tr, trace t' = trace t ++ tr
                            /\ count_occ event_eq_dec tr (EvInodeDecRef i) = 1%nat)).
Proof.
  intros Hflags ftype dir symlink.
  destruct (Init_fresh d f i s Hflags) as (s' & Hrun & Hview & _ & Hino & _).
  fold ftype dir symlink in Hview.
  assert (Hfl : flags (dentry s' d)
                = Z.lor (if dir then dflagsIsDir else 0)
                        (if symlink then dflagsIsSymlink else 0)).
  { rewrite Hview. now decides. }
  assert (Hd : negb (Z.land (flags (dentry s' d)) dflagsIsDir =? 0) = dir).
  { rewrite Hfl. now destruct dir, symlink. }
  assert (Hs : negb (Z.land (flags (dentry s' d)) dflagsIsSymlink =? 0) = symlink).
  { rewrite Hfl. now destruct dir, symlink. }
  exists s'. repeat match goal with |- _ /\ _ => split end.
  - exact Hrun.
  - rewrite Hview. now decides.
  - exact Hino.
  - now rewrite isDir_eq, Hd.
  - now rewrite isSymlink_eq, Hs.
  - unfold atomic_LoadUint32. rewrite Hfl. now destruct dir, symlink.
  - unfold atomic_LoadUint32. rewrite Hfl. now destruct dir, symlink.
  - intros ops s''. unfold s''.
    rewrite isDir_eq, isSymlink_eq, calls_flags, Hd, Hs. now split.
  - intros t Ht t'. split.
    + intros Hrefs.
      destruct (DecRef_locked_keeps_inode d t Hrefs) as (Hkeep & Hinodes & Htr).
      split; [unfold t'; congruence | split; [exact Hinodes | exact Htr]].
    + intros Hrefs Hret.
      destruct (DecRef_locked_releases_inode d t i Hrefs Ht Hret)
        as (Hnil & Hcount & _ & tr & Htr & Hone & _).
      split; [exact Hnil | split; [exact Hcount | eauto]].
Qed.

End Init_claim.

(** A new dentry at address 7 initialised with the directory inode 10. *)
Lemma Init_transfers_and_caches_witness :
  exists s',
    @Init linux_modes 7%nat 0%nat 10%nat replaced_entry = Ret tt s'
    /\ inode (dentry s' 7%nat) = Some 10%nat
    /\ isDir 7%nat s' = Ret true s'
    /\ isSymlink 7%nat s' = Ret false s'.
Proof.
  destruct (@Init_transfers_and_caches linux_modes replaced_entry 7%nat 0%nat 10%nat)
    as (s' & Hrun & Hino & _ & Hdir & Hsym & _).
  - reflexivity.
  - exists s'. repeat split; assumption.
Defined.

(** ** Inode numbers grow *)

Lemma consecutive_sorted (c : Z) (n : nat) : forall a : nat,
  StronglySorted Z.lt (map (fun k => c + Z.of_nat k) (seq a n)).
Proof.
  induction n as [|n IH]; intros a; cbn [seq map]; constructor; [apply IH|].
  apply List.Forall_forall. intros v Hv.
  apply in_map_iff in Hv as (k & <- & Hk). apply in_seq in Hk. lia.
Qed.

(** C8.  Each call of [NextIno] adds one to the counter, modulo [2^64],
    and returns the new value; [n] calls in a row return the [n] values
    that follow the counter, from a new filesystem the values [1 .. n]
    modulo [2^64], strictly increasing as long as the counter does not
    wrap; and no other call on the tree changes the counter. *)
Theorem NextIno_counts (s : State) (f : loc) (n : nat) :
  let c := nextInoMinusOne (filesystem s f) in
  (exists s1,
     NextIno f s = Ret (atomic_AddUint64 c 1) s1
     /\ nextInoMinusOne (filesystem s1 f) = (c + 1) mod 2 ^ 64
     /\ atomic_AddUint64 c 1 = (c + 1) mod 2 ^ 64)
  /\ (exists s', NextIno_calls n f s
                 = Ret (map (fun k => (c + Z.of_nat k) mod 2 ^ 64) (seq 1 n)) s')
  /\ (c = 0 ->
      exists s', NextIno_calls n f s
                 = Ret (map (fun k => Z.of_nat k mod 2 ^ 64) (seq 1 n)) s')
  /\ (0 <= c -> c + Z.of_nat n < 2 ^ 64 ->
      exists vs s',
        NextIno_calls n f s = Ret vs s'
        /\ StronglySorted Z.lt vs
        /\ Forall (fun v => c < v) vs)
  /\ (forall ops : list operation,
        (forall f', ~ In (Call_NextIno f') ops) ->
        nextInoMinusOne (filesystem (final_state (calls ops s)) f) = c)
  /\ (forall (modes : pkg_linux) (d f' i : loc),
        nextInoMinusOne (filesystem (final_state (@Init modes d f' i s)) f) = c).
Proof.
  intros c.
  destruct (NextIno_calls_eq n f s) as (s' & Hrun & _). fold c in Hrun.
  repeat match goal with |- _ /\ _ => split end.
  - eexists. split; [apply NextIno_eq|]. split; [|reflexivity].
    reads. reflexivity.
  - exists s'. exact Hrun.
  - intros Hc. exists s'. rewrite Hrun, Hc. reflexivity.
  - intros Hlo Hhi. eexists. exists s'. split; [exact Hrun|].
    assert (Heq : map (fun k => uint64 (c + Z.of_nat k)) (seq 1 n)
                  = map (fun k => c + Z.of_nat k) (seq 1 n)).
    { apply map_ext_in. intros k Hk. apply in_seq in Hk.
      unfold uint64. apply Z.mod_small. lia. }
    rewrite Heq. split; [apply consecutive_sorted|].
    apply List.Forall_forall. intros v Hv.
    apply in_map_iff in Hv as (k & <- & Hk). apply in_seq in Hk. lia.
  - intros ops Hops. now apply calls_nextIno.
  - intros modes d f' i.
    destruct (@Init_filesystems modes d f' i s) as (s1 & -> & Hfs).
    cbn [final_state]. unfold filesystem. now rewrite Hfs.
Qed.

(** Three calls on the filesystem 0 of the sample tree, which is new. *)
Lemma NextIno_counts_witness :
  (exists s', NextIno_calls 3 0%nat replaced_entry = Ret [1; 2; 3] s')
  /\ (exists vs s',
        NextIno_calls 3 0%nat replaced_entry = Ret vs s'
        /\ StronglySorted Z.lt vs
        /\ Forall (fun v => 0 < v) vs).
Proof.
  destruct (NextIno_counts replaced_entry 0%nat 3) as (_ & _ & Hnew & Hsorted & _).
  split.
  - apply Hnew. reflexivity.
  - apply Hsorted; vm_compute; [discriminate | reflexivity].
Defined.


(** * Further properties of the dentry tree *)

(** X7.  [Dentry.DecRef] returns an outcome on every memory, cyclic
    parent pointers included: the calls on parents stop after at most one
    call for each dentry that holds a last reference, and more fuel than
    that changes nothing. *)
Theorem DecRef_terminates (d : loc) (s : State) :
  exists o,
    DecRef d s = o
    /\ forall n, (DecRef_depth s <= n)%nat -> DecRef_fuel n d s = Some o.
Proof.
  exists (DecRef d s). split; [reflexivity|].
  intros n Hn. eapply DecRef_fuel_mono; [apply DecRef_total | exact Hn].
Qed.

(** X8.  Dropping a reference that is not the last one only lowers the
    count of that dentry: the inode, the parent and every other dentry are
    left alone, and [fs.mu] is taken and released around the decrement. *)
Theorem DecRef_not_last (d f : loc) (s : State) :
  fs (dentry s d) = Some f ->
  mu (filesystem s f) = false ->
  1 < DentryRefs (dentry s d) ->
  exists s',
    DecRef d s = Ret tt s'
    /\ (forall k, dentry s' k =
          if decide (k = d)
          then set_DentryRefs (DentryRefs (dentry s k) - 1) (dentry s k)
          else dentry s k)
    /\ (forall k, filesystem s' k = filesystem s k)
    /\ inodes s' = inodes s
    /\ trace s' = trace s
         ++ [EvLock (Filesystem_mu f); EvDecRef d; EvUnlock (Filesystem_mu f)].
Proof.
  intros Hfs Hmu Hrefs.
  destruct (DecRef_locked_keep d s f Hfs Hmu) as (s' & Hrun & Hrest); [lia|].
  exists s'. split; [|exact Hrest]. now rewrite DecRef_unfold, Hrun.
Qed.

Lemma DecRef_not_last_witness :
  exists s',
    DecRef 1%nat replaced_entry = Ret tt s'
    /\ DentryRefs (dentry s' 1%nat) = 2
    /\ inodes s' = inodes replaced_entry.
Proof.
  destruct (DecRef_not_last 1%nat 0%nat replaced_entry) as (s' & Hrun & Hd & _ & Hi & _).
  - reflexivity.
  - reflexivity.
  - vm_compute. reflexivity.
  - exists s'. split; [exact Hrun|]. split; [|exact Hi].
    rewrite Hd. reflexivity.
Defined.

(** X9.  A drop made while the caller holds [fs.mu] never returns and
    changes nothing; and a flush of the queue made while the caller holds
    the [fs.mu] of the dentry queued last empties the queue and then gets
    stuck before any count is lowered. *)
Theorem DecRef_under_mu_blocks (s : State) (d f : loc) :
  fs (dentry s d) = Some f ->
  mu (filesystem s f) = true ->
  DecRef d s = Blocked s
  /\ (forall q queued,
        droppedDentriesMu (filesystem s q) = false ->
        droppedDentries (filesystem s q) = queued ++ [d] ->
        processDeferredDecRefs q s = Blocked (drained q s)
        /\ droppedDentries (filesystem (drained q s) q) = []
        /\ (forall k, dentry (drained q s) k = dentry s k)).
Proof.
  intros Hfs Hmu. split.
  - now rewrite DecRef_unfold, (DecRef_locked_held d s f).
  - intros q queued Hfree Hq.
    pose proof (filesystem_drained q s) as Hdr.
    split; [|split].
    + rewrite processDeferredDecRefs_free by exact Hfree.
      rewrite Hq, rev_app_distr. cbn [rev app run_deferred].
      rewrite DecRef_unfold, (DecRef_locked_held d _ f); [reflexivity | exact Hfs |].
      rewrite Hdr by exact Hfree. destruct (decide (f = q)) as [->|]; exact Hmu.
    + rewrite Hdr by exact Hfree. now decides.
    + reflexivity.
Qed.

(** X10.  A dentry that was never initialised cannot be dropped: the call
    panics on the nil filesystem and changes nothing.  A last drop of a
    dentry without inode panics in the destructor, after the count has
    become zero and with [fs.mu] still held, so that every later drop on
    that filesystem gets stuck. *)
Theorem DecRef_panics (s : State) (d : loc) :
  (fs (dentry s d) = None -> DecRef d s = Panic NilPointerDereference s)
  /\ (forall f,
        fs (dentry s d) = Some f ->
        mu (filesystem s f) = false ->
        DentryRefs (dentry s d) = 1 ->
        inode (dentry s d) = None ->
        exists s',
          DecRef d s = Panic NilPointerDereference s'
          /\ DentryRefs (dentry s' d) = 0
          /\ held (Filesystem_mu f) s' = true
          /\ forall d', fs (dentry s' d') = Some f -> DecRef d' s' = Blocked s').
Proof.
  split.
  - intros Hfs. now rewrite DecRef_unfold, DecRef_locked_nil_fs.
  - intros f Hfs Hmu Hrefs Hino. exists (at_zero d f s).
    assert (Hheld : mu (filesystem (at_zero d f s) f) = true)
      by (unfold at_zero; reads; reflexivity).
    repeat match goal with |- _ /\ _ => split end.
    + now rewrite DecRef_unfold, (DecRef_locked_nil_inode d s f).
    + unfold at_zero. reads. reflexivity.
    + exact Hheld.
    + intros d' Hd'. now rewrite DecRef_unfold, (DecRef_locked_held d' _ f).
Qed.

(** The file dentry 2 dropped with [fs.mu] held. *)
Lemma DecRef_under_mu_blocks_witness :
  DecRef 2%nat (write_filesystem 0%nat (set_mu true (filesystem replaced_entry 0%nat))
                  replaced_entry)
  = Blocked (write_filesystem 0%nat (set_mu true (filesystem replaced_entry 0%nat))
               replaced_entry).
Proof.
  apply (DecRef_under_mu_blocks _ 2%nat 0%nat); reflexivity.
Defined.

(** The address 9 holds a dentry that was never initialised. *)
Lemma DecRef_panics_witness :
  DecRef 9%nat replaced_entry = Panic NilPointerDereference replaced_entry.
Proof.
  apply (DecRef_panics replaced_entry 9%nat). reflexivity.
Defined.

(** ** Mutexes after a call *)

Lemma delete_child_dirMu nm x : dirMu (delete_child nm x) = dirMu x.
Proof. unfold delete_child. now destruct (children x). Qed.

(** The part of [DecRef] under [fs.mu], when it returns, has put every
    filesystem and every [dirMu] back as it found them. *)
Lemma DecRef_locked_Ret_frame d s b s' :
  DecRef_locked d s = Ret b s' ->
  (forall k, filesystem s' k = filesystem s k)
  /\ (forall k, dirMu (dentry s' k) = dirMu (dentry s k)).
Proof.
  intros Hrun.
  destruct (fs (dentry s d)) as [f|] eqn:Hfs;
    [|rewrite DecRef_locked_nil_fs in Hrun by assumption; discriminate].
  destruct (mu (filesystem s f)) eqn:Hmu;
    [rewrite (DecRef_locked_held d s f) in Hrun by assumption; discriminate|].
  destruct (decide (DentryRefs (dentry s d) = 1)) as [Hrefs|Hrefs].
  2: { destruct (DecRef_locked_keep d s f) as (s2 & Hrun2 & Hd & Hf & _); try assumption.
       rewrite Hrun in Hrun2. injection Hrun2 as _ <-. split; [exact Hf|].
       intros k. rewrite Hd. now destruct (decide (k = d)). }
  destruct (inode (dentry s d)) as [i|] eqn:Hino;
    [|rewrite (DecRef_locked_nil_inode d s f) in Hrun by assumption; discriminate].
  destruct (parent (dentry s d)) as [p|] eqn:Hpar.
  2: { destruct (DecRef_locked_root d s f i) as (s2 & Hrun2 & Hd & Hf & _); try assumption.
       rewrite Hrun in Hrun2. injection Hrun2 as _ <-. split; [exact Hf|].
       intros k. rewrite Hd. now destruct (decide (k = d)). }
  destruct (dirMu (dentry s p)) eqn:Hp.
  { destruct (DecRef_locked_child_held d s f i p) as (s2 & Hrun2); try assumption.
    rewrite Hrun2 in Hrun. discriminate. }
  destruct (DecRef_locked_child d s f i p) as (s2 & Hrun2 & Hd & Hf & _); try assumption.
  rewrite Hrun in Hrun2. injection Hrun2 as _ <-. split; [exact Hf|].
  intros k. rewrite Hd.
  destruct (decide (k = p)), (decide (k = d)),
    (children_map (dentry s p) !! name (dentry s d));
    now rewrite ?delete_child_dirMu.
Qed.


Lemma DecRef_fuel_Ret_frame n : forall d s s',
  DecRef_fuel n d s = Some (Ret tt s') ->
  (forall k, filesystem s' k = filesystem s k)
  /\ (forall k, dirMu (dentry s' k) = dirMu (dentry s k)).
Proof.
  induction n as [|n IH]; intros d s s' Hrun; [discriminate|].
  cbn [DecRef_fuel] in Hrun.
  destruct (DecRef_locked d s) as [[] s1|v s1|s1] eqn:Hstep; try discriminate.
  - destruct (DecRef_locked_Ret_frame _ _ _ _ Hstep) as [Hf Hd].
    destruct (parent (dentry s1 d)) as [p|]; [|discriminate].
    destruct (IH _ _ _ Hrun) as [Hf' Hd'].
    split; intros k; [now rewrite Hf', Hf | now rewrite Hd', Hd].
  - injection Hrun as <-. exact (DecRef_locked_Ret_frame _ _ _ _ Hstep).
Qed.

Lemma DecRef_Ret_frame d s s' :
  DecRef d s = Ret tt s' ->
  (forall k, filesystem s' k = filesystem s k)
  /\ (forall k, dirMu (dentry s' k) = dirMu (dentry s k)).
Proof.
  intros Hrun. apply (DecRef_fuel_Ret_frame (DecRef_depth s) d).
  now rewrite DecRef_total, Hrun.
Qed.

Lemma run_deferred_Ret_frame calls_ : forall s s',
  run_deferred calls_ s = Ret tt s' ->
  (forall k, filesystem s' k = filesystem s k)
  /\ (forall k, dirMu (dentry s' k) = dirMu (dentry s k)).
Proof.
  induction calls_ as [|d calls_ IH]; intros s s' Hrun; cbn [run_deferred] in Hrun.
  - injection Hrun as <-. now split.
  - destruct (DecRef d s) as [[] s1|v s1|s1] eqn:Hd; try discriminate.
    + destruct (DecRef_Ret_frame _ _ _ Hd) as [Hf Hm].
      destruct (IH _ _ Hrun) as [Hf' Hm'].
      split; intros k; [now rewrite Hf', Hf | now rewrite Hm', Hm].
    + destruct (run_deferred calls_ s1) as [[] s2|v2 s2|s2]; discriminate.
Qed.




(** ** Drops only take away *)

Lemma only_drops_refl s : only_drops s s.
Proof. repeat split; try reflexivity; auto. Qed.

Lemma only_drops_trans s1 s2 s3 : only_drops s1 s2 -> only_drops s2 s3 -> only_drops s1 s3.
Proof.
  intros (Hr1 & Hp1 & Hn1 & Hc1 & Hi1 & Ho1) (Hr2 & Hp2 & Hn2 & Hc2 & Hi2 & Ho2).
  repeat split.
  - intros k. specialize (Hr1 k). specialize (Hr2 k). lia.
  - intros k. now rewrite Hp2.
  - intros k. now rewrite Hn2.
  - intros k. now transitivity (children_map (dentry s2 k)).
  - intros i. specialize (Hi1 i). specialize (Hi2 i). lia.
  - intros k. destruct (Ho2 k) as [-> | ->]; auto.
Qed.

Create HintDb drops.

Lemma drops_ret {A} (a : A) : drops (ret a).
Proof. intros s. apply only_drops_refl. Qed.

Lemma drops_panic {A} v : drops (@panic State A v).
Proof. intros s. apply only_drops_refl. Qed.

Lemma drops_gets {A} (f : State -> A) : drops (gets f).
Proof. intros s. apply only_drops_refl. Qed.

Lemma drops_bind {A B} (m : M State A) (k : A -> M State B) :
  drops m -> (forall a, drops (k a)) -> drops (bind m k).
Proof.
  intros Hm Hk s. unfold bind. specialize (Hm s).
  destruct (m s) as [a s'|v s'|s']; simpl in *; [|exact Hm..].
  eapply only_drops_trans; [exact Hm | apply Hk].
Qed.

Lemma drops_update_dentry d (f : Dentry -> Dentry) :
  (forall x, DentryRefs (f x) <= DentryRefs x) ->
  (forall x, parent (f x) = parent x) ->
  (forall x, name (f x) = name x) ->
  (forall x, children_map (f x) ⊆ children_map x) ->
  (forall x, inode (f x) = inode x \/ inode (f x) = None) ->
  drops (update_dentry d f).
Proof.
  intros Hr Hp Hn Hc Ho s. cbn [update_dentry modify final_state].
  repeat split; try (intros k; rewrite dentry_write_dentry;
                     destruct (decide (k = d)) as [->|]; auto; reflexivity).
  intros i. rewrite inode_obj_write_dentry. reflexivity.
Qed.

Lemma drops_update_filesystem fs_ (f : Filesystem -> Filesystem) :
  drops (update_filesystem fs_ f).
Proof.
  intros s. cbn [update_filesystem modify final_state].
  repeat split; intros k;
    rewrite ?dentry_write_filesystem, ?inode_obj_write_filesystem; auto; reflexivity.
Qed.

Lemma drops_update_inode i (f : Inode -> Inode) :
  (forall x, Inode_refs (f x) <= Inode_refs x) -> drops (update_inode i f).
Proof.
  intros Hf s. cbn [update_inode modify final_state].
  repeat split; try (intros k; rewrite dentry_write_inode; auto; reflexivity).
  intros k. rewrite inode_obj_write_inode. destruct (decide (k = i)) as [->|]; auto.
  reflexivity.
Qed.

Lemma drops_emit e : drops (emit e).
Proof.
  intros s. cbn [emit modify final_state].
  repeat split; intros k; rewrite ?dentry_record, ?inode_obj_record; auto; reflexivity.
Qed.

Lemma drops_deref {A} (p : option A) : drops (deref p).
Proof. destruct p; [apply drops_ret | apply drops_panic]. Qed.

Lemma drops_set_dirMu d b : drops (update_dentry d (set_dirMu b)).
Proof. apply drops_update_dentry; intros x; try reflexivity; auto. Qed.

Lemma drops_set_held l b : drops (set_held l b).
Proof.
  destruct l; cbn [set_held];
    first [ apply drops_update_filesystem | apply drops_set_dirMu ].
Qed.

Lemma drops_Lock l : drops (Lock l).
Proof.
  intros s. unfold Lock. destruct (held l s); [apply only_drops_refl|].
  apply (drops_bind _ _ (drops_set_held l true) (fun _ => drops_emit _)).
Qed.

Lemma drops_Unlock l : drops (Unlock l).
Proof. apply drops_bind; [apply drops_set_held | intros; apply drops_emit]. Qed.

Lemma drops_load_dentry d : drops (load_dentry d).
Proof. apply drops_gets. Qed.

Lemma drops_load_filesystem f : drops (load_filesystem f).
Proof. apply drops_gets. Qed.

Lemma drops_InvalidateDentry d : drops (InvalidateDentry d).
Proof. apply drops_emit. Qed.

Lemma drops_delete_child d k : drops (update_dentry d (delete_child k)).
Proof.
  apply drops_update_dentry; intros x; unfold delete_child, children_map;
    destruct (children x) as [m|] eqn:Hm; cbn; rewrite ?Hm; cbn;
    try reflexivity; auto; try lia.
  apply delete_subseteq.
Qed.

Lemma drops_decrement d :
  drops (update_dentry d (fun x => set_DentryRefs (DentryRefs x - 1) x)).
Proof. apply drops_update_dentry; intros x; cbn; try reflexivity; auto. lia. Qed.

Lemma drops_clear_inode d : drops (update_dentry d (set_inode None)).
Proof. apply drops_update_dentry; intros x; cbn; try reflexivity; auto. Qed.

Lemma drops_Inode_DecRef i : drops (Inode_DecRef i).
Proof.
  apply drops_bind; [|intros; apply drops_emit].
  apply drops_update_inode. intros x. cbn. lia.
Qed.

#[local] Hint Resolve drops_ret drops_panic drops_gets drops_update_filesystem
  drops_emit drops_deref drops_Lock drops_Unlock drops_load_dentry
  drops_load_filesystem drops_InvalidateDentry drops_delete_child drops_decrement
  drops_clear_inode drops_Inode_DecRef : drops.

Ltac drops_go :=
  repeat first
    [ solve [auto with drops]
    | apply drops_bind; [|intros]
    | match goal with
      | |- drops (match ?x with _ => _ end) => destruct x
      | |- drops (if ?b then _ else _) => destruct b
      end ].

Lemma drops_DecRef_locked d : drops (DecRef_locked d).
Proof. unfold DecRef_locked, DentryRefs_DecRef. drops_go. Qed.

Lemma DecRef_fuel_drops n : forall d s o,
  DecRef_fuel n d s = Some o -> only_drops s (final_state o).
Proof.
  induction n as [|n IH]; intros d s o Hrun; [discriminate|].
  cbn [DecRef_fuel] in Hrun.
  pose proof (drops_DecRef_locked d s) as Hstep.
  destruct (DecRef_locked d s) as [[] s'|v s'|s']; cbn [final_state] in Hstep.
  - destruct (parent (dentry s' d)) as [p|].
    + eapply only_drops_trans; [exact Hstep | eapply IH, Hrun].
    + now injection Hrun as <-.
  - now injection Hrun as <-.
  - now injection Hrun as <-.
  - now injection Hrun as <-.
Qed.

Lemma drops_DecRef d : drops (DecRef d).
Proof. intros s. eapply DecRef_fuel_drops, DecRef_total. Qed.

Lemma drops_run_deferred calls_ : drops (run_deferred calls_).
Proof.
  induction calls_ as [|d calls_ IH]; intros s; cbn [run_deferred].
  - apply only_drops_refl.
  - pose proof (drops_DecRef d s) as Hd.
    destruct (DecRef d s) as [[] s'|v s'|s']; cbn [final_state] in Hd.
    + eapply only_drops_trans; [exact Hd | apply IH].
    + specialize (IH s').
      destruct (run_deferred calls_ s'); cbn [final_state] in *;
        eapply only_drops_trans; eauto.
    + exact Hd.
Qed.

#[local] Hint Resolve drops_DecRef drops_run_deferred : drops.

(** X12.  Whatever its outcome, a drop only takes away, and so do the
    queueing of a drop and the flush of the queue: no count of a dentry or
    of an inode grows, no dentry changes its parent or its name, no map of
    children gains or changes a binding, and an inode pointer is kept or
    cleared. *)
Theorem drops_only_take_away (s : State) :
  (forall d, only_drops s (final_state (DecRef d s)))
  /\ (forall f d, only_drops s (final_state (deferDecRef f d s)))
  /\ (forall f, only_drops s (final_state (processDeferredDecRefs f s))).
Proof.
  split; [|split].
  - intros d. apply drops_DecRef.
  - intros f d. revert s. change (drops (deferDecRef f d)).
    unfold deferDecRef. drops_go.
  - intros f. revert s. change (drops (processDeferredDecRefs f)).
    unfold processDeferredDecRefs. drops_go.
Qed.

(** ** A panic inside [insertChild] *)

(** X13.  [insertChild] unlocks [d.dirMu] with a plain call, not a deferred
    one: when [insertChildLocked] panics because [d] is not a directory,
    the panic leaves [insertChild] with [d.dirMu] still held and nothing
    else changed, and every later [insertChild] on [d] blocks. *)
Theorem insertChild_panic_keeps_dirMu (s : State) (d : loc) (nm : string) (child : loc) :
  dirMu (dentry s d) = false ->
  Z.land (flags (dentry s d)) dflagsIsDir = 0 ->
  exists v s1,
    insertChild d nm child s = Panic v s1
    /\ held (Dentry_dirMu d) s1 = true
    /\ (forall k, dentry s1 k
                  = if decide (k = d) then set_dirMu true (dentry s k) else dentry s k)
    /\ filesystems s1 = filesystems s
    /\ inodes s1 = inodes s
    /\ trace s1 = trace s ++ [EvLock (Dentry_dirMu d)]
    /\ (forall nm' child', insertChild d nm' child' s1 = Blocked s1).
Proof.
  intros Hfree Hdir.
  set (s1 := record (EvLock (Dentry_dirMu d))
               (final_state (set_held (Dentry_dirMu d) true s))).
  assert (Hview : forall k, dentry s1 k
            = if decide (k = d) then set_dirMu true (dentry s k) else dentry s k).
  { intros k. unfold s1. cbn [set_held final_state update_dentry modify].
    destruct (decide (k = d)) as [->|Hk]; reads; reflexivity. }
  assert (Hheld : held (Dentry_dirMu d) s1 = true).
  { cbn [held]. rewrite Hview. decides. reflexivity. }
  exists (Sprintf "insertChildLocked called on non-directory Dentry: %+v."), s1.
  repeat match goal with |- _ /\ _ => split end; try reflexivity; auto.
  - unfold insertChild.
    eapply bind_Ret; [apply Lock_free, Hfree|]. fold s1.
    apply bind_Panic, insertChildLocked_not_dir.
    rewrite Hview. decides. exact Hdir.
  - intros nm' child'. apply insertChild_held, Hheld.
Qed.

(** The dentry 3 of the chain of three is a regular file. *)
Lemma insertChild_panic_keeps_dirMu_witness :
  exists v s1,
    insertChild 3%nat "c" 4%nat three_deep = Panic v s1
    /\ held (Dentry_dirMu 3%nat) s1 = true
    /\ insertChild 3%nat "c" 4%nat s1 = Blocked s1.
Proof.
  destruct (insertChild_panic_keeps_dirMu three_deep 3%nat "c" 4%nat)
    as (v & s1 & Hrun & Hheld & _ & _ & _ & _ & Hblock);
    [reflexivity | reflexivity |].
  exists v, s1. split; [exact Hrun|]. split; [exact Hheld | apply Hblock].
Defined.

(** ** A child inserted and dropped *)

(** X14.  [insertChild] followed by the drop of the last reference on the
    child undoes the link: the destructor of the child unbinds the name and
    the call on the parent gives back the reference [insertChild] took, so
    that the parent has its count again and its children without the name;
    the child has released its inode and keeps its parent pointer and its
    name. *)
Theorem insertChild_then_last_DecRef (s : State) (d child f fd i : loc) (nm : string) :
  child <> d ->
  dirMu (dentry s d) = false ->
  Z.land (flags (dentry s d)) dflagsIsDir <> 0 ->
  fs (dentry s d) = Some fd ->
  mu (filesystem s fd) = false ->
  DentryRefs (dentry s d) <> 0 ->
  fs (dentry s child) = Some f ->
  mu (filesystem s f) = false ->
  DentryRefs (dentry s child) = 1 ->
  inode (dentry s child) = Some i ->
  exists s',
    bind (insertChild d nm child) (fun _ => DecRef child) s = Ret tt s'
    /\ DentryRefs (dentry s' d) = DentryRefs (dentry s d)
    /\ children_map (dentry s' d) = delete nm (children_map (dentry s d))
    /\ DentryRefs (dentry s' child) = 0
    /\ inode (dentry s' child) = None
    /\ Dentry_Inode child s' = Ret None s'
    /\ parent (dentry s' child) = Some d
    /\ name (dentry s' child) = nm
    /\ Inode_refs (inode_obj s' i) = Inode_refs (inode_obj s i) - 1
    /\ (forall k, k <> d -> k <> child -> dentry s' k = dentry s k)
    /\ (forall k, filesystem s' k = filesystem s k).
Proof.
  intros Hne Hfree Hdir Hfd Hmud Hrefs Hf Hmu Hone Hi.
  destruct (insertChild_dir s d nm child Hfree Hdir)
    as (s1 & Hrun1 & Hv1 & Hfs1 & Hino1 & _).
  assert (Hfsys1 : forall k, filesystem s1 k = filesystem s k).
  { intros k. unfold filesystem. now rewrite Hfs1. }
  assert (Hc1 : dentry s1 child = set_name nm (set_parent (Some d) (dentry s child))).
  { rewrite Hv1. decides. reflexivity. }
  assert (Hd1 : dentry s1 d
                = set_children (Some (<[nm := child]> (children_map (dentry s d))))
                    (set_DentryRefs (DentryRefs (dentry s d) + 1) (dentry s d))).
  { rewrite Hv1. decides. reflexivity. }
  destruct (DecRef_locked_child child s1 f i d)
    as (s2 & Hrun2 & Hv2 & Hfsys2 & Hino2 & _).
  { now rewrite Hc1. }
  { now rewrite Hfsys1. }
  { now rewrite Hc1. }
  { now rewrite Hc1. }
  { now rewrite Hc1. }
  { now rewrite Hd1. }
  assert (Hbound : children_map (dentry s1 d) !! name (dentry s1 child) = Some child).
  { rewrite Hd1, Hc1. records; records. apply lookup_insert_eq. }
  rewrite Hbound in Hv2.
  assert (Hc2 : dentry s2 child = set_inode None (set_DentryRefs 0 (dentry s1 child))).
  { rewrite Hv2. decides. reflexivity. }
  assert (Hd2 : dentry s2 d = delete_child nm (dentry s1 d)).
  { rewrite Hv2. decides. rewrite Hc1. reflexivity. }
  destruct (DecRef_locked_keep d s2 fd) as (s3 & Hrun3 & Hv3 & Hfsys3 & Hino3 & _).
  { rewrite Hd2, Hd1. records; records. exact Hfd. }
  { now rewrite Hfsys2, Hfsys1. }
  { rewrite Hd2, Hd1. records; records. lia. }
  exists s3.
  assert (Hc3 : dentry s3 child = dentry s2 child).
  { rewrite Hv3. decides. reflexivity. }
  assert (Hd3 : dentry s3 d = set_DentryRefs (DentryRefs (dentry s2 d) - 1) (dentry s2 d)).
  { rewrite Hv3. decides. reflexivity. }
  repeat match goal with |- _ /\ _ => split end.
  - eapply bind_Ret; [exact Hrun1|].
    rewrite DecRef_unfold, Hrun2, Hc2, Hc1. records; records.
    rewrite DecRef_unfold, Hrun3. reflexivity.
  - rewrite Hd3, Hd2, Hd1. records; records. lia.
  - rewrite Hd3, Hd2, Hd1. records; records. apply delete_insert_eq.
  - rewrite Hc3, Hc2. reflexivity.
  - rewrite Hc3, Hc2. reflexivity.
  - unfold Dentry_Inode. eapply bind_Ret; [reflexivity|]. cbv beta.
    rewrite Hc3, Hc2. reflexivity.
  - rewrite Hc3, Hc2, Hc1. reflexivity.
  - rewrite Hc3, Hc2, Hc1. reflexivity.
  - unfold inode_obj. rewrite Hino3. fold (inode_obj s2 i). rewrite Hino2. decides.
    records; records. unfold inode_obj. now rewrite Hino1.
  - intros k Hkd Hkc. rewrite (Hv3 k), (Hv2 k), (Hv1 k). decides. reflexivity.
  - intros k. now rewrite Hfsys3, Hfsys2, Hfsys1.
Qed.

(** The regular file 3 of the chain of three, linked under the
    directory 1 as "c" and dropped. *)
Lemma insertChild_then_last_DecRef_witness :
  exists s',
    bind (insertChild 1%nat "c" 3%nat) (fun _ => DecRef 3%nat) three_deep = Ret tt s'
    /\ DentryRefs (dentry s' 1%nat) = 1
    /\ children_map (dentry s' 1%nat) !! "c" = None
    /\ inode (dentry s' 3%nat) = None.
Proof.
  destruct (insertChild_then_last_DecRef three_deep 1%nat 3%nat 0%nat 0%nat 12%nat "c")
    as (s' & Hrun & Hrefs & Hch & _ & Hino & _);
    try reflexivity; try discriminate.
  exists s'. split; [exact Hrun|]. split; [exact Hrefs|]. split; [|exact Hino].
  rewrite Hch. apply lookup_delete_eq.
Defined.

(** ** Initialising a dentry again *)

Lemma land_bit (x : Z) (n : Z) :
  0 <= n -> negb (Z.land x (Z.shiftl 1 n) =? 0) = Z.testbit x n.
Proof.
  intros Hn. rewrite Z.shiftl_1_l.
  destruct (Z.testbit x n) eqn:Hbit.
  - apply negb_true_iff, Z.eqb_neq. intros Hzero.
    apply (f_equal (fun v => Z.testbit v n)) in Hzero.
    rewrite Z.land_spec, Hbit, Z.pow2_bits_true, Z.bits_0 in Hzero by exact Hn.
    discriminate.
  - apply negb_false_iff, Z.eqb_eq, Z.bits_inj'. intros m Hm.
    rewrite Z.land_spec, Z.bits_0, Z.pow2_bits_eqb by exact Hn.
    destruct (Z.eqb_spec n m) as [<-|_]; [now rewrite Hbit | apply andb_false_r].
Qed.

Section Init_again.
Context `{!pkg_linux}.

Lemma Init_view d f i s :
  let ftype := FileMode_FileType (Inode_Mode (inode_obj s i)) in
  exists s',
    Init d f i s = Ret tt s'
    /\ (forall k, dentry s' k =
          if decide (k = d)
          then set_flags
                 (Z.lor (Z.lor (flags (dentry s k))
                           (if bool_decide (ftype = ModeDirectory) then dflagsIsDir else 0))
                        (if bool_decide (ftype = ModeSymlink) then dflagsIsSymlink else 0))
                 (set_inode (Some i) (set_fs (Some f) (set_vfsd (Some d) (dentry s k))))
          else dentry s k)
    /\ filesystems s' = filesystems s
    /\ inodes s' = inodes s
    /\ trace s' = trace s.
Proof.
  intros ftype. unfold Init, DentryRefs_EnableLeakCheck.
  destruct (bool_decide (ftype = ModeDirectory)) eqn:Hdir;
    destruct (bool_decide (ftype = ModeSymlink)) eqn:Hsym.
  all: eexists; split;
    [ do 4 step; fold ftype; rewrite Hdir; step; rewrite Hsym; step; reflexivity
    | repeat split; try reflexivity;
      intros k; destruct (decide (k = d)) as [->|Hk]; reads; records;
      rewrite ?Z.lor_0_r; reflexivity ].
Qed.

(** X15.  [Init] never fails and only adds to the cached flags: on a
    dentry that was initialised before, [isDir] and [isSymlink] answer
    true when they did before or when the new inode is of that type, so a
    directory initialised again with a symbolic link counts as both.  The
    filesystem and the inode are replaced; the count, the parent, the
    name, the children, the other dentries and the count of the inode are
    as before. *)
Theorem Init_only_adds_flags (s : State) (d f i : loc) :
  let ftype := FileMode_FileType (Inode_Mode (inode_obj s i)) in
  exists s',
    Init d f i s = Ret tt s'
    /\ (forall was, isDir d s = Ret was s ->
          isDir d s' = Ret (was || bool_decide (ftype = ModeDirectory)) s')
    /\ (forall was, isSymlink d s = Ret was s ->
          isSymlink d s' = Ret (was || bool_decide (ftype = ModeSymlink)) s')
    /\ fs (dentry s' d) = Some f
    /\ inode (dentry s' d) = Some i
    /\ DentryRefs (dentry s' d) = DentryRefs (dentry s d)
    /\ parent (dentry s' d) = parent (dentry s d)
    /\ name (dentry s' d) = name (dentry s d)
    /\ children (dentry s' d) = children (dentry s d)
    /\ (forall k, k <> d -> dentry s' k = dentry s k)
    /\ inodes s' = inodes s.
Proof.
  intros ftype.
  destruct (Init_view d f i s) as (s' & Hrun & Hview & _ & Hino & _). fold ftype in Hview.
  pose proof (Hview d) as Hd. rewrite decide_True in Hd by reflexivity.
  exists s'. repeat match goal with |- _ /\ _ => split end;
    try (rewrite Hd; reflexivity); auto.
  - intros was Hwas. rewrite isDir_eq in Hwas. injection Hwas as <-.
    rewrite isDir_eq, Hd. f_equal. cbn [flags set_flags].
    unfold dflagsIsDir, dflagsIsSymlink.
    rewrite !land_bit, !Z.lor_spec by lia.
    destruct (bool_decide (ftype = ModeDirectory)), (bool_decide (ftype = ModeSymlink));
      cbn; rewrite ?orb_false_r, ?orb_true_r; reflexivity.
  - intros was Hwas. rewrite isSymlink_eq in Hwas. injection Hwas as <-.
    rewrite isSymlink_eq, Hd. f_equal. cbn [flags set_flags].
    unfold dflagsIsDir, dflagsIsSymlink.
    rewrite !land_bit, !Z.lor_spec by lia.
    destruct (bool_decide (ftype = ModeDirectory)), (bool_decide (ftype = ModeSymlink));
      cbn; rewrite ?orb_false_r, ?orb_true_r; reflexivity.
  - intros k Hk. rewrite Hview. now rewrite decide_False by exact Hk.
Qed.

End Init_again.

(** ** Inode numbers do not repeat *)

Lemma uint64_eq_iff (a b : Z) : uint64 a = uint64 b <-> (a - b) mod 2 ^ 64 = 0.
Proof.
  unfold uint64. split; intros H.
  - now rewrite Zminus_mod, H, Z.sub_diag.
  - replace a with (b + (a - b)) by lia.
    now rewrite Zplus_mod, H, Z.add_0_r, Z.mod_mod by lia.
Qed.

Lemma uint64_near (a b : Z) : - 2 ^ 64 < a - b < 2 ^ 64 -> uint64 a = uint64 b -> a = b.
Proof.
  intros Hnear Heq. apply uint64_eq_iff in Heq.
  apply Z.mod_divide in Heq; [|lia]. destruct Heq as [q Hq]. nia.
Qed.

(** X16.  The numbers that [n] calls of [NextIno] in a row return are
    unsigned 64-bit values; two of the calls return the same number exactly
    when their positions differ by a multiple of [2^64], so that up to
    [2^64] calls return pairwise different numbers, whatever the counter
    was and also when it wraps around. *)
Theorem NextIno_never_repeats (s : State) (f : loc) (n : nat) :
  exists vs s',
    NextIno_calls n f s = Ret vs s'
    /\ length vs = n
    /\ Forall (fun v => 0 <= v < 2 ^ 64) vs
    /\ (forall j k : nat,
          (j < n)%nat -> (k < n)%nat ->
          (nth j vs 0 = nth k vs 0 <-> (Z.of_nat j - Z.of_nat k) mod 2 ^ 64 = 0))
    /\ (Z.of_nat n <= 2 ^ 64 -> NoDup vs).
Proof.
  destruct (NextIno_calls_eq n f s) as (s' & Hrun & _).
  set (c := nextInoMinusOne (filesystem s f)) in *.
  set (g := fun k : nat => uint64 (c + Z.of_nat k)) in *.
  exists (map g (seq 1 n)), s'.
  assert (Hnth : forall j, (j < n)%nat -> nth j (map g (seq 1 n)) 0 = g (S j)).
  { intros j Hj. rewrite (nth_indep _ 0 (g 0%nat)) by now rewrite length_map, length_seq.
    rewrite map_nth, seq_nth by exact Hj. reflexivity. }
  repeat match goal with |- _ /\ _ => split end.
  - exact Hrun.
  - now rewrite length_map, length_seq.
  - apply List.Forall_forall. intros v Hv. apply in_map_iff in Hv as (k & <- & _).
    unfold g, uint64. apply Z.mod_pos_bound. lia.
  - intros j k Hj Hk. rewrite !Hnth by assumption. unfold g.
    rewrite uint64_eq_iff. now replace (c + Z.of_nat (S j) - (c + Z.of_nat (S k)))
      with (Z.of_nat j - Z.of_nat k) by lia.
  - intros Hn. change (NoDup (g <$> seq 1 n)).
    apply NoDup_fmap_2_strong; [|apply NoDup_seq].
    intros x y Hx Hy Heq. apply elem_of_seq in Hx, Hy.
    apply uint64_near in Heq; lia.
Qed.

(** ** A chain of last references *)

Lemma last_chain_ext (s s' : State) (ds : list loc) :
  (forall k, In k ds ->
     DentryRefs (dentry s' k) = DentryRefs (dentry s k)
     /\ fs (dentry s' k) = fs (dentry s k)
     /\ inode (dentry s' k) = inode (dentry s k)
     /\ dirMu (dentry s' k) = dirMu (dentry s k)
     /\ parent (dentry s' k) = parent (dentry s k)) ->
  (forall f, mu (filesystem s' f) = mu (filesystem s f)) ->
  last_chain s ds -> last_chain s' ds.
Proof.
  intros Hsame Hmu. induction ds as [|d ds IH]; [trivial|].
  intros (Hrefs & (f & Hf & Hfree) & Hino & Hdir & Hpar & Hrest).
  destruct (Hsame d) as (E1 & E2 & E3 & E4 & E5); [now left|].
  cbn [last_chain]. rewrite E1, E2, E3, E4, E5.
  repeat match goal with |- _ /\ _ => split end; auto.
  - exists f. now rewrite Hmu.
  - apply IH; [|exact Hrest]. intros k Hk. apply Hsame. now right.
Qed.

(** X17.  The drop of the last reference on the first dentry of a chain
    of last references destroys the whole chain, child before parent: the
    call returns, every dentry of the chain has count zero and no inode,
    and the dentries outside the chain are as they were. *)
Theorem DecRef_destroys_chain (ds : list loc) : forall (d : loc) (s : State),
  NoDup (d :: ds) ->
  last_chain s (d :: ds) ->
  exists s',
    DecRef d s = Ret tt s'
    /\ (forall k, In k (d :: ds) ->
          DentryRefs (dentry s' k) = 0 /\ inode (dentry s' k) = None)
    /\ (forall k, ~ In k (d :: ds) -> dentry s' k = dentry s k)
    /\ (forall f, filesystem s' f = filesystem s f).
Proof.
  induction ds as [|p ds IH]; intros d s Hnodup Hchain;
    destruct Hchain as (Hrefs & (f & Hf & Hfree) & [i Hino] & Hdir & Hpar & Hrest);
    cbn [head] in Hpar.
  - destruct (DecRef_locked_root d s f i Hf Hfree Hrefs Hino Hpar)
      as (s' & Hrun & Hview & Hfsys & _).
    exists s'. split; [now rewrite DecRef_unfold, Hrun|].
    split; [|split; [|exact Hfsys]].
    + intros k [<-|[]]. rewrite Hview, decide_True by reflexivity. now split.
    + intros k Hk. rewrite Hview, decide_False; [reflexivity|].
      intros ->. apply Hk. now left.
  - pose proof Hrest as (_ & _ & _ & Hpdir & _).
    apply NoDup_cons in Hnodup as [Hd Hnodup].
    assert (Hdp : d <> p) by (intros ->; apply Hd; now left).
    destruct (DecRef_locked_child d s f i p Hf Hfree Hrefs Hino Hpar Hpdir)
      as (s1 & Hrun & Hview & Hfsys & _).
    assert (Hd1 : dentry s1 d = set_inode None (set_DentryRefs 0 (dentry s d))).
    { rewrite Hview. decides. reflexivity. }
    assert (Hother : forall k, k <> d ->
              DentryRefs (dentry s1 k) = DentryRefs (dentry s k)
              /\ fs (dentry s1 k) = fs (dentry s k)
              /\ inode (dentry s1 k) = inode (dentry s k)
              /\ dirMu (dentry s1 k) = dirMu (dentry s k)
              /\ parent (dentry s1 k) = parent (dentry s k)).
    { intros k Hk. rewrite (Hview k). rewrite (decide_False (P := k = d)) by exact Hk.
      destruct (decide (k = p)) as [->|]; [|now repeat split].
      destruct (children_map (dentry s p) !! name (dentry s d)); [|now repeat split].
      unfold delete_child. destruct (children (dentry s p)); now repeat split. }
    destruct (IH p s1 Hnodup) as (s' & Hrun' & Hzero & Hout & Hfsys').
    { apply (last_chain_ext s); [| |exact Hrest].
      - intros k Hk. apply Hother. intros ->. apply Hd, list_elem_of_In, Hk.
      - intros f'. now rewrite Hfsys. }
    exists s'. split; [|split; [|split]].
    + rewrite DecRef_unfold, Hrun, Hd1. cbn [parent set_inode set_DentryRefs].
      rewrite Hpar. exact Hrun'.
    + intros k [<-|Hk]; [|now apply Hzero].
      rewrite Hout, Hd1; [now split|].
      intros Hin. apply Hd, list_elem_of_In, Hin.
    + intros k Hk. rewrite Hout by (intros Hin; apply Hk; now right).
      rewrite (Hview k).
      rewrite (decide_False (P := k = d)) by (intros ->; apply Hk; now left).
      rewrite (decide_False (P := k = p)) by (intros ->; apply Hk; right; now left).
      reflexivity.
    + intros f'. now rewrite Hfsys', Hfsys.
Qed.

(** The chain of three, dropped from the file at its end. *)
Lemma DecRef_destroys_chain_witness :
  exists s',
    DecRef 3%nat three_deep = Ret tt s'
    /\ DentryRefs (dentry s' 1%nat) = 0
    /\ inode (dentry s' 1%nat) = None.
Proof.
  destruct (DecRef_destroys_chain [2%nat; 1%nat] 3%nat three_deep)
    as (s' & Hrun & Hzero & _).
  - repeat (apply NoDup_cons_2; [rewrite ?elem_of_cons, elem_of_nil; lia|]).
    apply NoDup_nil_2.
  - cbn [last_chain head].
    repeat match goal with
           | |- _ /\ _ => split
           | |- exists f, _ => exists 0%nat
           | |- is_Some _ => eexists
           end; reflexivity.
  - exists s'. split; [exact Hrun|]. apply Hzero. right. right. now left.
Defined.

(** ** After a flush *)

(** X18.  A flush of the queue that returns leaves the queue empty and
    its mutex free, whatever the deferred drops destroyed; a second flush
    then returns at once: it calls no [DecRef], changes no dentry and no
    inode, and only takes and releases the mutex of the queue. *)
Theorem processDeferredDecRefs_twice (s s' : State) (f : loc) :
  processDeferredDecRefs f s = Ret tt s' ->
  droppedDentries (filesystem s' f) = []
  /\ held (Filesystem_droppedDentriesMu f) s' = false
  /\ exists s'',
       processDeferredDecRefs f s' = Ret tt s''
       /\ (forall k, dentry s'' k = dentry s' k)
       /\ inodes s'' = inodes s'
       /\ droppedDentries (filesystem s'' f) = []
       /\ trace s'' = trace s'
            ++ [EvLock (Filesystem_droppedDentriesMu f); EvQueueReset f;
                EvUnlock (Filesystem_droppedDentriesMu f)].
Proof.
  intros Hrun.
  destruct (droppedDentriesMu (filesystem s f)) eqn:Hmu.
  { rewrite processDeferredDecRefs_held in Hrun by exact Hmu. discriminate. }
  rewrite processDeferredDecRefs_free in Hrun by exact Hmu.
  apply run_deferred_Ret_frame in Hrun as [Hfsys _].
  pose proof (filesystem_drained f s f Hmu) as Hf.
  rewrite decide_True in Hf by reflexivity.
  assert (Hq : droppedDentries (filesystem s' f) = []) by now rewrite Hfsys, Hf.
  assert (Hfree : droppedDentriesMu (filesystem s' f) = false).
  { rewrite Hfsys, Hf. exact Hmu. }
  split; [exact Hq|]. split; [exact Hfree|].
  exists (drained f s'). split.
  { rewrite processDeferredDecRefs_free by exact Hfree. now rewrite Hq. }
  split; [reflexivity|]. split; [reflexivity|]. split; [|apply trace_drained].
  rewrite filesystem_drained by exact Hfree. now rewrite decide_True by reflexivity.
Qed.

(** The flush of the queue of the sample tree, in which three drops are
    queued. *)
Lemma processDeferredDecRefs_twice_witness :
  droppedDentries
    (filesystem (final_state (processDeferredDecRefs 0%nat queued_entries)) 0%nat) = [].
Proof.
  apply (processDeferredDecRefs_twice queued_entries). vm_compute. reflexivity.
Defined.

(** ** Drops deferred and flushed *)

Lemma deferDecRefs_free (f : loc) (ds : list loc) : forall s,
  droppedDentriesMu (filesystem s f) = false ->
  exists s',
    deferDecRefs f ds s = Ret tt s'
    /\ (forall k, filesystem s' k =
          if decide (k = f)
          then set_droppedDentries (droppedDentries (filesystem s k) ++ ds) (filesystem s k)
          else filesystem s k)
    /\ dentries s' = dentries s
    /\ inodes s' = inodes s
    /\ trace s' = trace s ++ deferDecRefs_events f ds.
Proof.
  induction ds as [|d ds IH]; intros s Hfree.
  - exists s. split; [reflexivity|]. repeat split; try reflexivity.
    + intros k. rewrite app_nil_r.
      destruct (decide (k = f)); [now destruct (filesystem s k) | reflexivity].
    + cbn [deferDecRefs_events flat_map]. now rewrite app_nil_r.
  - destruct (deferDecRef_free f d s Hfree) as (s1 & Hrun1 & Hf1 & Hd1 & Hi1 & Ht1).
    destruct (IH s1) as (s2 & Hrun2 & Hf2 & Hd2 & Hi2 & Ht2).
    { rewrite Hf1, decide_True by reflexivity. exact Hfree. }
    exists s2. split.
    { cbn [deferDecRefs]. eapply bind_Ret; [exact Hrun1 | exact Hrun2]. }
    repeat split.
    + intros k. rewrite Hf2, Hf1. destruct (decide (k = f)); [|reflexivity].
      records. now rewrite <- app_assoc.
    + now rewrite Hd2.
    + now rewrite Hi2.
    + rewrite Ht2, Ht1. unfold deferDecRefs_events. cbn [flat_map].
      now rewrite <- app_assoc.
Qed.

(** X19.  Drops that are deferred and then flushed are applied, the last
    deferred first: from an empty queue, deferring the drops of [ds] and
    flushing is the calls of [DecRef] on [ds] in reverse order, made with
    the queue empty again; and when none of them is a last reference the
    flush returns with every count lowered by the number of times the
    dentry was deferred. *)
Theorem deferred_then_flushed (s : State) (f : loc) (ds : list loc) :
  droppedDentriesMu (filesystem s f) = false ->
  droppedDentries (filesystem s f) = [] ->
  exists s0,
    bind (deferDecRefs f ds) (fun _ => processDeferredDecRefs f) s
    = run_deferred (rev ds) s0
    /\ (forall k, dentry s0 k = dentry s k)
    /\ inodes s0 = inodes s
    /\ droppedDentries (filesystem s0 f) = []
    /\ trace s0 = trace s ++ deferDecRefs_events f ds
         ++ [EvLock (Filesystem_droppedDentriesMu f); EvQueueReset f;
             EvUnlock (Filesystem_droppedDentriesMu f)]
    /\ ((forall k, In k ds ->
           exists fk, fs (dentry s k) = Some fk /\ mu (filesystem s fk) = false) ->
        (forall k, In k ds ->
           Z.of_nat (count_occ Nat.eq_dec ds k) < DentryRefs (dentry s k)) ->
        exists s',
          run_deferred (rev ds) s0 = Ret tt s'
          /\ (forall k, DentryRefs (dentry s' k)
                        = DentryRefs (dentry s k) - Z.of_nat (count_occ Nat.eq_dec ds k))
          /\ droppedDentries (filesystem s' f) = []).
Proof.
  intros Hfree Hempty.
  destruct (deferDecRefs_free f ds s Hfree) as (s1 & Hrun1 & Hf1 & Hd1 & Hi1 & Ht1).
  assert (Hq1 : filesystem s1 f = set_droppedDentries ds (filesystem s f)).
  { rewrite Hf1, decide_True by reflexivity. now rewrite Hempty. }
  assert (Hfree1 : droppedDentriesMu (filesystem s1 f) = false) by now rewrite Hq1.
  assert (Hdent : forall k, dentry (drained f s1) k = dentry s k).
  { intros k. rewrite dentry_drained. unfold dentry. now rewrite Hd1. }
  assert (Hfs0 : forall k, mu (filesystem (drained f s1) k) = mu (filesystem s k)).
  { intros k. rewrite filesystem_drained, Hf1 by exact Hfree1.
    destruct (decide (k = f)); reflexivity. }
  assert (Hq0 : droppedDentries (filesystem (drained f s1) f) = []).
  { rewrite filesystem_drained by exact Hfree1. now rewrite decide_True by reflexivity. }
  exists (drained f s1). repeat match goal with |- _ /\ _ => split end.
  - eapply bind_Ret; [exact Hrun1|].
    rewrite processDeferredDecRefs_free by exact Hfree1. now rewrite Hq1.
  - exact Hdent.
  - unfold drained. cbv zeta. reads. exact Hi1.
  - exact Hq0.
  - now rewrite trace_drained, Ht1, <- app_assoc.
  - intros Hfs Hrefs.
    destruct (run_deferred_keep (rev ds) (drained f s1))
      as (s' & Hrun' & Hview & Hfsys & _).
    { intros k Hk. apply in_rev in Hk. destruct (Hfs k Hk) as (fk & Hfk & Hmu).
      exists fk. now rewrite Hdent, Hfs0. }
    { intros k Hk. apply in_rev in Hk. rewrite Hdent, count_occ_rev. now apply Hrefs. }
    exists s'. split; [exact Hrun'|]. split.
    + intros k. rewrite Hview, Hdent. cbn [DentryRefs set_DentryRefs].
      now rewrite count_occ_rev.
    + now rewrite Hfsys.
Qed.

(** Two drops of the dentry 2 and one of the dentry 3 of the sample tree,
    deferred and flushed. *)
Lemma deferred_then_flushed_witness :
  exists s0,
    bind (deferDecRefs 0%nat [2%nat; 3%nat; 2%nat]) (fun _ => processDeferredDecRefs 0%nat)
      before_lookups
    = run_deferred [2%nat; 3%nat; 2%nat] s0
    /\ droppedDentries (filesystem s0 0%nat) = [].
Proof.
  destruct (deferred_then_flushed before_lookups 0%nat [2%nat; 3%nat; 2%nat])
    as (s0 & Hrun & _ & _ & Hq & _); [reflexivity | reflexivity |].
  exists s0. split; [exact Hrun | exact Hq].
Defined.
End kernfs_facts.
